(** * ordering_buffer.cpp: the reordering buffer [BlocksBuffer]

    A shallow embedding of [src/ordering_buffer.cpp] and the properties of
    its three operations [AddBlock], [GetCurrentBlock] and
    [SetCurrentBlocknum].

    - C++ [int] and [unsigned int] are 32 bits wide and modelled as [Z] with
      the conversions between them written out; [size_t] is 64 bits wide.
    - Undefined behaviour (division by zero, a [vector] access out of range,
      signed overflow of [current_blocknum++]) is an explicit result.
    - Every operation also yields the list of synchronisation and memory
      events it performs, in program order, so that the locking discipline
      can be stated.
    - [GetCurrentBlock] either delivers a block or parks the consumer in
      [current_slot_cv.wait]; the code that runs after the wait is the
      separate function [GetCurrentBlock_wake].
    - Of the harness only the calls the two threads make are modelled: the
      blocks [add_random_blocks] adds and the calls of [GetCurrentBlock] of
      [main].  Its output, its sleeping and the scheduling of its threads
      are not. *)

From Stdlib Require Import ZArith Lia.
From stdpp Require Import base list.

Local Open Scope Z_scope.

(** ** Machine integers *)

Module Int32.

Definition INT_MIN : Z := -2147483648.
Definition INT_MAX : Z := 2147483647.
Definition UINT_MAX : Z := 4294967295.

(** The values of type [int] and of type [unsigned int]. *)
Definition is_int (z : Z) : Prop := INT_MIN <= z <= INT_MAX.
Definition is_unsigned (z : Z) : Prop := 0 <= z <= UINT_MAX.

(** Conversion of an [int] to [unsigned int] (the usual arithmetic
    conversion applied to the left operand of [int / unsigned] and
    [int % unsigned]): reduction modulo 2^32. *)
Definition to_unsigned (z : Z) : Z := z mod 4294967296.

(** Conversion of an [unsigned int] to [int] (the initialisation of
    [int epoch] and [int index]): the value congruent modulo 2^32 in the
    range of [int]. *)
Definition to_int (z : Z) : Z := (z + 2147483648) mod 4294967296 - 2147483648.

(** Conversion of an [int] to [size_t] (the argument of
    [vector::operator[]]): reduction modulo 2^64. *)
Definition to_size_t (z : Z) : Z := z mod 18446744073709551616.

End Int32.
Import Int32.

(** ** Data *)

(** [class Block { int number_; ... }]. *)
Record Block : Type := mkBlock { number_ : Z }.

(** [int Block::number()]. *)
Definition number (b : Block) : Z := number_ b.

#[global] Instance Block_eq_dec : EqDecision Block.
Proof. solve_decision. Defined.

(** The members of [class BlocksBuffer] that hold data.  The two mutexes and
    the condition variable carry no data; their use shows in the events. *)
Record BlocksBuffer : Type := mkBlocksBuffer {
  buffer_size : Z;                 (* unsigned int buffer_size *)
  buffer : list (Block * Z);       (* vector< pair<Block, int> > buffer *)
  current_blocknum : Z             (* int current_blocknum *)
}.

(** The entry every slot is initialised with: [make_pair(Block(0), -1)]. *)
Definition default_slot : Block * Z := (mkBlock 0, -1).

(** The constructor [BlocksBuffer(unsigned int bsize)]. *)
Definition BlocksBuffer_new (bsize : Z) : BlocksBuffer :=
  {| buffer_size := bsize;
     buffer := replicate (Z.to_nat bsize) default_slot;
     current_blocknum := 0 |}.

(** The class invariant the constructor establishes: the vector has
    [buffer_size] entries, and the members have values of their types. *)
Record wf (bb : BlocksBuffer) : Prop := mkWf {
  wf_size : is_unsigned (buffer_size bb);
  wf_length : Z.of_nat (length (buffer bb)) = buffer_size bb;
  wf_blocknum : is_int (current_blocknum bb)
}.

(** ** Results, events and the monad of the operations *)

(** Undefined behaviour of the C++ program. *)
Inductive fault : Type :=
| DivisionByZero     (* x / 0 or x % 0 *)
| OutOfRange         (* buffer[i] with i >= buffer.size() *)
| SignedOverflow.    (* current_blocknum++ at INT_MAX *)

Inductive res (A : Type) : Type :=
| Ok (a : A)
| Undefined (f : fault).
Arguments Ok {A} a.
Arguments Undefined {A} f.

Inductive mutex : Type := current_blocknum_mutex | current_slot_mutex.

Inductive event : Type :=
| Acquire (m : mutex)
| Release (m : mutex)
| BlocknumRead
| BlocknumWrite
| SlotRead (i : Z)
| SlotWrite (i : Z)
| NotifyOne            (* current_slot_cv.notify_one() *)
| WaitCv               (* current_slot_cv.wait(slot_lck): releases the slot mutex and parks *)
| Print (n : Z).       (* the line written to cout *)

Definition M (A : Type) : Type := BlocksBuffer -> res (A * BlocksBuffer * list event).

Definition ret {A} (a : A) : M A := fun bb => Ok (a, bb, []).

Definition bind {A B} (m : M A) (k : A -> M B) : M B :=
  fun bb =>
    match m bb with
    | Ok (a, bb1, tr1) =>
        match k a bb1 with
        | Ok (b, bb2, tr2) => Ok (b, bb2, tr1 ++ tr2)
        | Undefined f => Undefined f
        end
    | Undefined f => Undefined f
    end.

Notation "'let*' x ':=' m 'in' k" := (bind m (fun x => k))
  (at level 10, x name, m at level 100, k at level 200).
Notation "m ';;' k" := (bind m (fun _ => k))
  (at level 100, k at level 200, right associativity).

Definition undefined {A} (f : fault) : M A := fun _ => Undefined f.
Definition emit (e : event) : M unit := fun bb => Ok (tt, bb, [e]).

(** Reads of the members. *)
Definition get_buffer_size : M Z := fun bb => Ok (buffer_size bb, bb, []).
Definition load_blocknum : M Z := fun bb => Ok (current_blocknum bb, bb, [BlocknumRead]).

(** [current_blocknum = v]. *)
Definition store_blocknum (v : Z) : M unit :=
  fun bb =>
    Ok (tt,
        {| buffer_size := buffer_size bb; buffer := buffer bb; current_blocknum := v |},
        [BlocknumWrite]).

(** [current_blocknum++]: undefined on signed overflow. *)
Definition incr_blocknum : M unit :=
  let* cur := load_blocknum in
  if cur =? INT_MAX then undefined SignedOverflow else store_blocknum (cur + 1).

(** [n / d] and [n % d] for [int n] and [unsigned int d]: [n] is converted
    to [unsigned int] first, and the result has type [unsigned int]. *)
Definition int_div_unsigned (n d : Z) : M Z :=
  if d =? 0 then undefined DivisionByZero else ret (to_unsigned n / d).
Definition int_mod_unsigned (n d : Z) : M Z :=
  if d =? 0 then undefined DivisionByZero else ret (to_unsigned n mod d).

(** [buffer[index]] for [int index], read and written.  The index is
    converted to [size_t]; an index past the end is undefined behaviour. *)
Definition load_slot (index : Z) : M (Block * Z) :=
  fun bb =>
    match buffer bb !! Z.to_nat (to_size_t index) with
    | Some s => Ok (s, bb, [SlotRead index])
    | None => Undefined OutOfRange
    end.

Definition store_slot (index : Z) (s : Block * Z) : M unit :=
  fun bb =>
    match buffer bb !! Z.to_nat (to_size_t index) with
    | Some _ =>
        Ok (tt,
            {| buffer_size := buffer_size bb;
               buffer := <[Z.to_nat (to_size_t index) := s]> (buffer bb);
               current_blocknum := current_blocknum bb |},
            [SlotWrite index])
    | None => Undefined OutOfRange
    end.

(** ** The operations *)

(** [void BlocksBuffer::AddBlock(Block b)]. *)
Definition AddBlock (b : Block) : M unit :=
  let* bsize := get_buffer_size in
  let* q := int_div_unsigned (number b) bsize in
  let epoch := to_int q in
  let* r := int_mod_unsigned (number b) bsize in
  let index := to_int r in
  let* cur := load_blocknum in
  if number b =? cur then
    emit (Acquire current_slot_mutex) ;;
    store_slot index (b, epoch) ;;
    emit NotifyOne ;;
    emit (Release current_slot_mutex)
  else
    store_slot index (b, epoch).

(** What a call of [GetCurrentBlock] comes to: it returns a block, or the
    consumer is parked in [current_slot_cv.wait] with [index] in its frame. *)
Inductive delivery : Type :=
| Delivered (b : Block)
| Parked (index : Z).

(** [Block BlocksBuffer::GetCurrentBlock()], up to its return or its wait. *)
Definition GetCurrentBlock : M delivery :=
  let* shown := load_blocknum in
  emit (Print shown) ;;
  emit (Acquire current_blocknum_mutex) ;;
  let* bsize := get_buffer_size in
  let* cur := load_blocknum in
  let* q := int_div_unsigned cur bsize in
  let epoch := to_int q in
  let* cur' := load_blocknum in
  let* r := int_mod_unsigned cur' bsize in
  let index := to_int r in
  emit (Acquire current_slot_mutex) ;;
  let* s := load_slot index in
  if s.2 =? epoch then
    incr_blocknum ;;
    let* s' := load_slot index in
    emit (Release current_slot_mutex) ;;
    emit (Release current_blocknum_mutex) ;;
    ret (Delivered s'.1)
  else
    emit WaitCv ;;
    ret (Parked index).

(** The rest of [GetCurrentBlock] once [current_slot_cv.wait] returns (the
    wait re-acquires the slot mutex): lines 115-116 and the two destructors.
    The slot is not tested again. *)
Definition GetCurrentBlock_wake (index : Z) : M Block :=
  emit (Acquire current_slot_mutex) ;;
  incr_blocknum ;;
  let* s' := load_slot index in
  emit (Release current_slot_mutex) ;;
  emit (Release current_blocknum_mutex) ;;
  ret s'.1.

(** [void BlocksBuffer::SetCurrentBlocknum(int blocknum)]. *)
Definition SetCurrentBlocknum (blocknum : Z) : M unit :=
  emit (Acquire current_blocknum_mutex) ;;
  store_blocknum blocknum ;;
  emit (Release current_blocknum_mutex).

(** ** The values the operations compute

    [epoch_of n bsize] and [index_of n bsize] are the values of the locals
    [int epoch = n / buffer_size] and [int index = n % buffer_size]. *)

Definition epoch_of (n bsize : Z) : Z := to_int (to_unsigned n / bsize).
Definition index_of (n bsize : Z) : Z := to_int (to_unsigned n mod bsize).

(** The position in the vector that [buffer[index]] designates. *)
Definition position (index : Z) : nat := Z.to_nat (to_size_t index).

Definition set_slot (bb : BlocksBuffer) (index : Z) (s : Block * Z) : BlocksBuffer :=
  {| buffer_size := buffer_size bb;
     buffer := <[position index := s]> (buffer bb);
     current_blocknum := current_blocknum bb |}.

Definition set_blocknum (bb : BlocksBuffer) (v : Z) : BlocksBuffer :=
  {| buffer_size := buffer_size bb; buffer := buffer bb; current_blocknum := v |}.

(** The events of [AddBlock]: the write is bracketed by the slot mutex only
    when the block is the one the buffer is currently to deliver. *)
Definition AddBlock_events (targeted : bool) (index : Z) : list event :=
  if targeted
  then [BlocknumRead; Acquire current_slot_mutex; SlotWrite index; NotifyOne;
        Release current_slot_mutex]
  else [BlocknumRead; SlotWrite index].

Definition deliver_events (cur index : Z) : list event :=
  [BlocknumRead; Print cur; Acquire current_blocknum_mutex; BlocknumRead; BlocknumRead;
   Acquire current_slot_mutex; SlotRead index; BlocknumRead; BlocknumWrite; SlotRead index;
   Release current_slot_mutex; Release current_blocknum_mutex].

Definition park_events (cur index : Z) : list event :=
  [BlocknumRead; Print cur; Acquire current_blocknum_mutex; BlocknumRead; BlocknumRead;
   Acquire current_slot_mutex; SlotRead index; WaitCv].

Definition wake_events (index : Z) : list event :=
  [Acquire current_slot_mutex; BlocknumRead; BlocknumWrite; SlotRead index;
   Release current_slot_mutex; Release current_blocknum_mutex].

(** ** The locking discipline on a list of events

    [slot_accesses_guarded held tr]: every read and write of a slot in [tr]
    happens while [current_slot_mutex] is held, [held] telling whether it is
    held when [tr] starts. *)
Definition mutex_eqb (m1 m2 : mutex) : bool :=
  match m1, m2 with
  | current_blocknum_mutex, current_blocknum_mutex => true
  | current_slot_mutex, current_slot_mutex => true
  | _, _ => false
  end.

Fixpoint slot_accesses_guarded (held : bool) (tr : list event) : bool :=
  match tr with
  | [] => true
  | Acquire m :: tr' =>
      slot_accesses_guarded (if mutex_eqb m current_slot_mutex then true else held) tr'
  | Release m :: tr' =>
      slot_accesses_guarded (if mutex_eqb m current_slot_mutex then false else held) tr'
  | WaitCv :: tr' => slot_accesses_guarded false tr'
  | SlotRead _ :: tr' | SlotWrite _ :: tr' => held && slot_accesses_guarded held tr'
  | _ :: tr' => slot_accesses_guarded held tr'
  end.

(** ** The buffer together with its single consumer

    A history is the list of calls in the order in which they take effect,
    one at a time.  The consumer is either running or parked inside
    [GetCurrentBlock]; while it is parked it holds [current_blocknum_mutex],
    so that neither a second [GetCurrentBlock] nor a [SetCurrentBlocknum]
    can take effect.  A wait may return at any time: the code does not test
    the slot again, and the standard allows spurious wake-ups. *)

Inductive op : Type :=
| CallAddBlock (b : Block)
| CallGetCurrentBlock
| WaitReturns                      (* the parked consumer leaves the wait *)
| CallSetCurrentBlocknum (n : Z).

Record system : Type := mkSystem {
  obj : BlocksBuffer;
  parked : option Z;               (* the [index] of the parked consumer *)
  received : list Block            (* the blocks returned so far, oldest first *)
}.

Inductive outcome : Type :=
| Next (s : system)
| Faulted (f : fault)
| NotEnabled.

Definition start (bsize : Z) : system :=
  {| obj := BlocksBuffer_new bsize; parked := None; received := [] |}.

Definition exec (o : op) (s : system) : outcome :=
  match o, parked s with
  | CallAddBlock b, _ =>
      match AddBlock b (obj s) with
      | Ok (_, bb', _) => Next {| obj := bb'; parked := parked s; received := received s |}
      | Undefined f => Faulted f
      end
  | CallGetCurrentBlock, None =>
      match GetCurrentBlock (obj s) with
      | Ok (Delivered b, bb', _) =>
          Next {| obj := bb'; parked := None; received := received s ++ [b] |}
      | Ok (Parked index, bb', _) =>
          Next {| obj := bb'; parked := Some index; received := received s |}
      | Undefined f => Faulted f
      end
  | WaitReturns, Some index =>
      match GetCurrentBlock_wake index (obj s) with
      | Ok (b, bb', _) => Next {| obj := bb'; parked := None; received := received s ++ [b] |}
      | Undefined f => Faulted f
      end
  | CallSetCurrentBlocknum n, None =>
      match SetCurrentBlocknum n (obj s) with
      | Ok (_, bb', _) => Next {| obj := bb'; parked := None; received := received s |}
      | Undefined f => Faulted f
      end
  | _, _ => NotEnabled
  end.

Fixpoint run (h : list op) (s : system) : outcome :=
  match h with
  | [] => Next s
  | o :: h' =>
      match exec o s with
      | Next s' => run h' s'
      | stop => stop
      end
  end.

(** The arguments of the calls have values of their C++ types. *)
Definition op_typed (o : op) : Prop :=
  match o with
  | CallAddBlock b => is_int (number b)
  | CallSetCurrentBlocknum n => is_int n
  | _ => True
  end.

(** Only blocks with a number that is not negative are added. *)
Definition op_adds_nonneg (o : op) : Prop :=
  match o with
  | CallAddBlock b => 0 <= number b
  | _ => True
  end.

(** The block most recently added at position [pos] of the vector in the
    history [h], if any. *)
Fixpoint last_added (bsize : Z) (pos : nat) (h : list op) : option Block :=
  match h with
  | [] => None
  | o :: h' =>
      match last_added bsize pos h' with
      | Some b => Some b
      | None =>
          match o with
          | CallAddBlock b =>
              if decide (position (index_of (number b) bsize) = pos) then Some b else None
          | _ => None
          end
      end
  end.

(** The blocks numbered [from], [from + 1], ..., [from + len - 1]. *)
Definition blocks (from len : Z) : list Block := mkBlock <$> seqZ from len.

(** The slots record the history: a position at which no block was added
    holds the entry of the constructor, and any other holds the block added
    there last together with the quotient of its number by the capacity. *)
Definition slots_track_history (bsize : Z) (h : list op) (buf : list (Block * Z)) : Prop :=
  forall (pos : nat) (slot : Block * Z),
    buf !! pos = Some slot ->
    match last_added bsize pos h with
    | None => slot = default_slot
    | Some b => slot = (b, number b / bsize)
    end.

(** ** The mutexes along a list of events

    [locks_after held tr] follows the mutexes held through [tr], most
    recently acquired first.  It is [None] when [tr] acquires a mutex that
    is held (the thread would block on itself), acquires
    [current_blocknum_mutex] while [current_slot_mutex] is held (against the
    order in which [GetCurrentBlock] takes them), releases a mutex that is
    not held, or waits without holding [current_slot_mutex]. *)
Definition holds (m : mutex) (held : list mutex) : bool := existsb (mutex_eqb m) held.

Definition drop_mutex (m : mutex) (held : list mutex) : list mutex :=
  filter (fun m' => negb (mutex_eqb m m')) held.

Fixpoint locks_after (held : list mutex) (tr : list event) : option (list mutex) :=
  match tr with
  | [] => Some held
  | Acquire m :: tr' =>
      if holds m held then None
      else if mutex_eqb m current_blocknum_mutex && holds current_slot_mutex held then None
      else locks_after (m :: held) tr'
  | Release m :: tr' =>
      if holds m held then locks_after (drop_mutex m held) tr' else None
  | WaitCv :: tr' =>
      if holds current_slot_mutex held
      then locks_after (drop_mutex current_slot_mutex held) tr'
      else None
  | _ :: tr' => locks_after held tr'
  end.

(** ** Calls that do not overlap, and wake-ups that follow a notification

    A reading of a history for callers that keep their calls apart: every
    call of [AddBlock] runs from its first line to its return before the
    next call takes effect, so that no step of the consumer falls between
    the test of line 73 and the write that follows it; the only call that
    is under way while another runs is a [GetCurrentBlock] parked in its
    wait.  [notified] tells whether [notify_one] was called since the
    consumer parked.  In this reading a wait returns only after a
    notification, and between the notification and the return no block
    with another number is written to the slot the consumer waits for
    (what the comment on [AddBlock] assumes: the value at its index is no
    longer used).  What a call of [AddBlock] that is overtaken between its
    test and its write can do is the subject of [AddBlock_test] and
    [AddBlock_write] below. *)
Record paced : Type := mkPaced {
  sys : system;
  notified : bool
}.

Inductive paced_outcome : Type :=
| PNext (p : paced)
| PFaulted (f : fault)
| PNotEnabled.

Definition start_paced (bsize : Z) : paced := {| sys := start bsize; notified := false |}.

(** [AddBlock(b)] calls [notify_one]: it takes the branch of line 73. *)
Definition notifies (b : Block) (s : system) : bool :=
  number b =? current_blocknum (obj s).

(** [AddBlock(b)] writes the slot of the parked consumer. *)
Definition hits_awaited_slot (b : Block) (s : system) : bool :=
  match parked s with
  | Some index =>
      Nat.eqb (position (index_of (number b) (buffer_size (obj s)))) (position index)
  | None => false
  end.

Definition lift_outcome (r : outcome) (n : bool) : paced_outcome :=
  match r with
  | Next s' => PNext {| sys := s'; notified := n |}
  | Faulted f => PFaulted f
  | NotEnabled => PNotEnabled
  end.

Definition exec_paced (o : op) (p : paced) : paced_outcome :=
  match o with
  | CallAddBlock b =>
      if notified p && hits_awaited_slot b (sys p) && negb (notifies b (sys p))
      then PNotEnabled
      else lift_outcome (exec o (sys p))
             (notified p || (bool_decide (is_Some (parked (sys p))) && notifies b (sys p)))
  | WaitReturns =>
      if notified p then lift_outcome (exec o (sys p)) false else PNotEnabled
  | _ => lift_outcome (exec o (sys p)) false
  end.

Fixpoint run_paced (h : list op) (p : paced) : paced_outcome :=
  match h with
  | [] => PNext p
  | o :: h' =>
      match exec_paced o p with
      | PNext p' => run_paced h' p'
      | stop => stop
      end
  end.

(** The cursor is only set to values that are not negative. *)
Definition op_resets_nonneg (o : op) : Prop :=
  match o with
  | CallSetCurrentBlocknum n => 0 <= n
  | _ => True
  end.

Definition op_is_reset (o : op) : Prop :=
  match o with
  | CallSetCurrentBlocknum _ => True
  | _ => False
  end.

(** ** The two parts of [AddBlock]

    [AddBlock] reads [current_blocknum] for the test of line 73 before it
    takes any mutex, and writes the slot afterwards, in the branch the test
    chose.  Calls of other threads can take effect between the two parts;
    the second part then runs with the locals the first part computed. *)
Record AddBlock_frame : Type := mkFrame {
  frame_epoch : Z;
  frame_index : Z;
  frame_targeted : bool          (* the value of [b.number() == current_blocknum] *)
}.

(** Lines 69-73: the locals [epoch] and [index] and the test. *)
Definition AddBlock_test (b : Block) : M AddBlock_frame :=
  let* bsize := get_buffer_size in
  let* q := int_div_unsigned (number b) bsize in
  let epoch := to_int q in
  let* r := int_mod_unsigned (number b) bsize in
  let index := to_int r in
  let* cur := load_blocknum in
  ret {| frame_epoch := epoch; frame_index := index; frame_targeted := number b =? cur |}.

(** Lines 74-77, or lines 78-80, with the locals of the frame. *)
Definition AddBlock_write (b : Block) (f : AddBlock_frame) : M unit :=
  if frame_targeted f then
    emit (Acquire current_slot_mutex) ;;
    store_slot (frame_index f) (b, frame_epoch f) ;;
    emit NotifyOne ;;
    emit (Release current_slot_mutex)
  else
    store_slot (frame_index f) (b, frame_epoch f).

(** ** The calls of the harness

    The global [BlocksBuffer buffer(BLOCKS_BUFFER_SIZE)] and the calls that
    [add_random_blocks] and [main] make on it. *)
Definition BLOCKS_BUFFER_SIZE : Z := 100.

(** One iteration of the loop of [add_random_blocks]:
    [n = rand() % BLOCKS_BUFFER_SIZE; buffer.AddBlock(n)], both operands of
    [%] being [int]; [r] is the value [rand()] returned. *)
Definition add_random_blocks_iteration (r : Z) : op :=
  CallAddBlock (mkBlock (Z.rem r BLOCKS_BUFFER_SIZE)).

(** The calls the two threads of the harness make: an iteration of
    [add_random_blocks] for a value of [rand()], which lies between 0 and
    [RAND_MAX], an [int]; [GetCurrentBlock] and its return from the wait in
    [main]; and never [SetCurrentBlocknum]. *)
Definition harness_op (o : op) : Prop :=
  match o with
  | CallAddBlock _ => exists r, 0 <= r <= INT_MAX /\ o = add_random_blocks_iteration r
  | CallSetCurrentBlocknum _ => False
  | _ => True
  end.

(** * Properties *)

(** ** The conversions *)

Section Conversions.

Lemma to_unsigned_range z : is_unsigned (to_unsigned z).
Proof. unfold is_unsigned, to_unsigned, UINT_MAX. Z.div_mod_to_equations. lia. Qed.

Lemma to_int_range z : is_int (to_int z).
Proof. unfold is_int, to_int, INT_MIN, INT_MAX. Z.div_mod_to_equations. lia. Qed.

Lemma to_unsigned_nonneg z : 0 <= z <= UINT_MAX -> to_unsigned z = z.
Proof. unfold to_unsigned, UINT_MAX. intros. apply Z.mod_small. lia. Qed.

Lemma to_unsigned_neg z : INT_MIN <= z < 0 -> to_unsigned z = z + 4294967296.
Proof. unfold to_unsigned, INT_MIN. intros. Z.div_mod_to_equations. lia. Qed.

Lemma to_int_small z : 0 <= z <= INT_MAX -> to_int z = z.
Proof. unfold to_int, INT_MAX. intros. Z.div_mod_to_equations. lia. Qed.

Lemma to_size_t_small z : 0 <= z <= UINT_MAX -> to_size_t z = z.
Proof. unfold to_size_t, UINT_MAX. intros. apply Z.mod_small. lia. Qed.

Lemma to_size_t_neg z : INT_MIN <= z < 0 -> to_size_t z = z + 18446744073709551616.
Proof. unfold to_size_t, INT_MIN. intros. Z.div_mod_to_equations. lia. Qed.

Lemma position_small z : 0 <= z <= UINT_MAX -> position z = Z.to_nat z.
Proof. intros. unfold position. by rewrite to_size_t_small. Qed.

(** For a number that is not negative the two locals are the quotient and
    the remainder. *)
Lemma index_of_nonneg n bsize :
  0 <= n <= INT_MAX -> 0 < bsize -> index_of n bsize = n mod bsize.
Proof.
  intros Hn Hb. unfold index_of. rewrite to_unsigned_nonneg by (unfold INT_MAX, UINT_MAX in *; lia).
  apply to_int_small. pose proof (Z.mod_pos_bound n bsize Hb).
  assert (n mod bsize <= n) by (apply Z.mod_le; lia). lia.
Qed.

Lemma epoch_of_nonneg n bsize :
  0 <= n <= INT_MAX -> 0 < bsize -> epoch_of n bsize = n / bsize.
Proof.
  intros Hn Hb. unfold epoch_of. rewrite to_unsigned_nonneg by (unfold INT_MAX, UINT_MAX in *; lia).
  apply to_int_small.
  assert (0 <= n / bsize) by (apply Z.div_pos; lia).
  assert (n / bsize <= n) by (apply Z.div_le_upper_bound; nia). lia.
Qed.

(** When the capacity fits [int] plus one, [int index] holds the remainder. *)
Lemma index_of_fits n bsize :
  0 < bsize <= 2147483648 -> index_of n bsize = to_unsigned n mod bsize.
Proof.
  intros Hb. unfold index_of. apply to_int_small.
  pose proof (Z.mod_pos_bound (to_unsigned n) bsize). unfold INT_MAX. lia.
Qed.

Lemma index_of_bounds n bsize :
  0 < bsize <= 2147483648 -> 0 <= index_of n bsize < bsize.
Proof.
  intros Hb. rewrite index_of_fits by done. apply Z.mod_pos_bound. lia.
Qed.

End Conversions.

(** ** What each operation comes to *)

Section Unfolding.

Lemma AddBlock_unfold b bb :
  AddBlock b bb =
  if buffer_size bb =? 0 then Undefined DivisionByZero
  else
    let index := index_of (number b) (buffer_size bb) in
    match buffer bb !! position index with
    | Some _ =>
        Ok (tt, set_slot bb index (b, epoch_of (number b) (buffer_size bb)),
            AddBlock_events (number b =? current_blocknum bb) index)
    | None => Undefined OutOfRange
    end.
Proof.
  unfold AddBlock, bind, get_buffer_size, int_div_unsigned, int_mod_unsigned,
    load_blocknum, store_slot, emit, undefined, ret, index_of, epoch_of, position, set_slot.
  destruct (buffer_size bb =? 0); [done|]. cbn [buffer current_blocknum buffer_size].
  destruct (number b =? current_blocknum bb); cbn [buffer current_blocknum buffer_size];
    destruct (buffer bb !! _); done.
Qed.

Lemma GetCurrentBlock_unfold bb :
  GetCurrentBlock bb =
  if buffer_size bb =? 0 then Undefined DivisionByZero
  else
    let cur := current_blocknum bb in
    let index := index_of cur (buffer_size bb) in
    match buffer bb !! position index with
    | Some s =>
        if s.2 =? epoch_of cur (buffer_size bb) then
          if cur =? INT_MAX then Undefined SignedOverflow
          else Ok (Delivered s.1, set_blocknum bb (cur + 1), deliver_events cur index)
        else Ok (Parked index, bb, park_events cur index)
    | None => Undefined OutOfRange
    end.
Proof.
  unfold GetCurrentBlock, incr_blocknum, bind, get_buffer_size, int_div_unsigned,
    int_mod_unsigned, load_blocknum, store_blocknum, load_slot, emit, undefined, ret,
    index_of, epoch_of, position, set_blocknum.
  destruct (buffer_size bb =? 0); [done|]. cbn [buffer current_blocknum buffer_size].
  destruct (buffer bb !! _) as [s|] eqn:Hs; [|done].
  destruct (s.2 =? _); [|done].
  destruct (current_blocknum bb =? INT_MAX); [done|].
  cbn [buffer current_blocknum buffer_size]. rewrite Hs. done.
Qed.

Lemma GetCurrentBlock_wake_unfold index bb :
  GetCurrentBlock_wake index bb =
  if current_blocknum bb =? INT_MAX then Undefined SignedOverflow
  else
    match buffer bb !! position index with
    | Some s => Ok (s.1, set_blocknum bb (current_blocknum bb + 1), wake_events index)
    | None => Undefined OutOfRange
    end.
Proof.
  unfold GetCurrentBlock_wake, incr_blocknum, bind, load_blocknum, store_blocknum,
    load_slot, emit, undefined, ret, position, set_blocknum.
  destruct (current_blocknum bb =? INT_MAX); [done|].
  cbn [buffer current_blocknum buffer_size].
  destruct (buffer bb !! _); done.
Qed.

Lemma SetCurrentBlocknum_unfold n bb :
  SetCurrentBlocknum n bb =
  Ok (tt, set_blocknum bb n,
      [Acquire current_blocknum_mutex; BlocknumWrite; Release current_blocknum_mutex]).
Proof. reflexivity. Qed.

End Unfolding.

(** ** Histories *)

Section Histories.

Lemma run_app h1 h2 s :
  run (h1 ++ h2) s = match run h1 s with Next s' => run h2 s' | stop => stop end.
Proof.
  revert s. induction h1 as [|o h1 IH]; intros s; cbn [run app]; [done|].
  destruct (exec o s); auto.
Qed.

Lemma run_snoc h o s :
  run (h ++ [o]) s = match run h s with Next s' => exec o s' | stop => stop end.
Proof.
  rewrite run_app. destruct (run h s) as [s'| |]; [|done..].
  cbn [run]. by destruct (exec o s').
Qed.

Lemma Block_eta b : mkBlock (number b) = b.
Proof. by destruct b. Qed.

(** Adding a block whose number is below the capacity writes the slot with
    that number, with epoch 0. *)
Lemma exec_add_low b s :
  0 <= number b <= INT_MAX ->
  number b < buffer_size (obj s) ->
  Z.of_nat (length (buffer (obj s))) = buffer_size (obj s) ->
  exec (CallAddBlock b) s =
  Next {| obj := {| buffer_size := buffer_size (obj s);
                    buffer := <[Z.to_nat (number b) := (b, 0)]> (buffer (obj s));
                    current_blocknum := current_blocknum (obj s) |};
          parked := parked s; received := received s |}.
Proof.
  intros Hn Hlt Hlen. unfold exec. rewrite AddBlock_unfold.
  destruct (Z.eqb_spec (buffer_size (obj s)) 0) as [?|_]; [lia|].
  cbv zeta. rewrite index_of_nonneg, epoch_of_nonneg by lia.
  rewrite Z.mod_small, Z.div_small by lia.
  rewrite position_small by (unfold INT_MAX, UINT_MAX in *; lia).
  destruct (lookup_lt_is_Some_2 (buffer (obj s)) (Z.to_nat (number b))) as [x ->]; [lia|].
  unfold set_slot. rewrite position_small by (unfold INT_MAX, UINT_MAX in *; lia). done.
Qed.

Lemma run_adds_low (l : list Block) s :
  Z.of_nat (length (buffer (obj s))) = buffer_size (obj s) ->
  (forall b, b ∈ l -> 0 <= number b <= INT_MAX /\ number b < buffer_size (obj s)) ->
  exists s',
    run (CallAddBlock <$> l) s = Next s' /\
    parked s' = parked s /\ received s' = received s /\
    current_blocknum (obj s') = current_blocknum (obj s) /\
    buffer_size (obj s') = buffer_size (obj s) /\
    length (buffer (obj s')) = length (buffer (obj s)) /\
    forall i : nat,
      (mkBlock (Z.of_nat i) ∈ l -> (i < length (buffer (obj s)))%nat ->
       buffer (obj s') !! i = Some (mkBlock (Z.of_nat i), 0)) /\
      (mkBlock (Z.of_nat i) ∉ l -> buffer (obj s') !! i = buffer (obj s) !! i).
Proof.
  revert s. induction l as [|b l IH]; intros s Hlen Hl.
  { exists s. cbn. repeat split; try done. intros H. by apply elem_of_nil in H. }
  destruct (Hl b) as [Hb1 Hb2]; [by left|].
  rewrite fmap_cons. cbn [run]. rewrite exec_add_low by done.
  match goal with |- context [run _ ?t] => set (s1 := t) end.
  destruct (IH s1) as (s' & Hrun & Hp & Hr & Hc & Hs & Hlen' & Hslots).
  { subst s1. cbn. rewrite length_insert. done. }
  { intros b' Hb'. subst s1. cbn. apply Hl. by right. }
  exists s'. subst s1. cbn in *. rewrite length_insert in Hlen'.
  repeat split; try done.
  - intros Hin Hi. destruct (decide (mkBlock (Z.of_nat i) ∈ l)) as [Hin'|Hnin].
    + apply Hslots; [done|]. by rewrite length_insert.
    + rewrite (proj2 (Hslots i) Hnin).
      apply elem_of_cons in Hin as [Heq|?]; [|done].
      assert (Z.to_nat (number b) = i) as <- by (rewrite <- Heq; cbn; lia).
      rewrite list_lookup_insert_eq by lia. rewrite Z2Nat.id by lia. by rewrite Block_eta.
  - intros Hnin. apply not_elem_of_cons in Hnin as [Hne Hnin].
    rewrite (proj2 (Hslots i) Hnin).
    apply list_lookup_insert_ne. intros <-. apply Hne.
    rewrite Z2Nat.id by lia. by rewrite Block_eta.
Qed.

(** Delivering the block at the cursor when the cursor is below the capacity
    and the slot holds the block of epoch 0. *)
Lemma exec_get_low s b :
  parked s = None ->
  0 <= current_blocknum (obj s) < INT_MAX ->
  current_blocknum (obj s) < buffer_size (obj s) ->
  buffer (obj s) !! Z.to_nat (current_blocknum (obj s)) = Some (b, 0) ->
  exec CallGetCurrentBlock s =
  Next {| obj := set_blocknum (obj s) (current_blocknum (obj s) + 1);
          parked := None; received := received s ++ [b] |}.
Proof.
  intros Hp Hc Hlt Hslot. unfold exec. rewrite Hp, GetCurrentBlock_unfold.
  destruct (Z.eqb_spec (buffer_size (obj s)) 0) as [?|_]; [lia|].
  cbv zeta. rewrite index_of_nonneg, epoch_of_nonneg by lia.
  rewrite Z.mod_small, Z.div_small by lia.
  rewrite position_small by (unfold INT_MAX, UINT_MAX in *; lia).
  rewrite Hslot. cbn [snd fst]. rewrite Z.eqb_refl.
  destruct (Z.eqb_spec (current_blocknum (obj s)) INT_MAX) as [?|_]; [lia|]. done.
Qed.

Lemma numbers_of_blocks from len : number <$> blocks from len = seqZ from len.
Proof.
  unfold blocks. rewrite <- list_fmap_compose.
  rewrite <- (list_fmap_id (seqZ from len)) at 2. by apply list_fmap_ext.
Qed.

Lemma blocks_snoc from (k : nat) :
  blocks from (Z.of_nat (S k)) = blocks from (Z.of_nat k) ++ [mkBlock (from + Z.of_nat k)].
Proof. unfold blocks. by rewrite seqZ_S, fmap_app. Qed.

Lemma run_gets_low (k : nat) s :
  parked s = None ->
  0 <= current_blocknum (obj s) ->
  current_blocknum (obj s) + Z.of_nat k <= INT_MAX ->
  current_blocknum (obj s) + Z.of_nat k <= buffer_size (obj s) ->
  (forall i, current_blocknum (obj s) <= i < current_blocknum (obj s) + Z.of_nat k ->
             buffer (obj s) !! Z.to_nat i = Some (mkBlock i, 0)) ->
  run (replicate k CallGetCurrentBlock) s =
  Next {| obj := set_blocknum (obj s) (current_blocknum (obj s) + Z.of_nat k);
          parked := None;
          received := received s ++ blocks (current_blocknum (obj s)) (Z.of_nat k) |}.
Proof.
  induction k as [|k IH]; intros Hp Hc Hmax Hsize Hslots.
  { cbn [replicate run]. destruct s as [[bs buf cur] p r]. cbn in *. subst p.
    unfold set_blocknum, blocks. cbn. by rewrite Z.add_0_r, app_nil_r. }
  rewrite replicate_S_end, run_snoc, IH by (try done; intros; try apply Hslots; lia).
  rewrite exec_get_low with (b := mkBlock (current_blocknum (obj s) + Z.of_nat k)).
  - cbn. unfold set_blocknum. cbn. rewrite blocks_snoc, app_assoc.
    do 3 f_equal. lia.
  - done.
  - cbn. lia.
  - cbn. lia.
  - cbn. apply Hslots. lia.
Qed.

Lemma start_length bsize :
  0 <= bsize -> Z.of_nat (length (buffer (obj (start bsize)))) = bsize.
Proof.
  intros. unfold start, BlocksBuffer_new. cbn [obj buffer buffer_size].
  rewrite length_replicate. lia.
Qed.

End Histories.

(** ** In-order delivery *)

Section Ordering.

Lemma adds_cover (l : list Block) len :
  number <$> l ≡ₚ seqZ 0 len ->
  (forall b, b ∈ l -> 0 <= number b < len) /\
  (forall i, 0 <= i < len -> mkBlock i ∈ l).
Proof.
  intros Hperm. split.
  - intros b Hb. assert (number b ∈ seqZ 0 len) as Hin.
    { rewrite <- Hperm. by apply list_elem_of_fmap_2. }
    apply elem_of_seqZ in Hin. lia.
  - intros i Hi. assert (i ∈ number <$> l) as Hin.
    { rewrite Hperm. apply elem_of_seqZ. lia. }
    apply list_elem_of_fmap in Hin as (b & -> & Hb). by rewrite Block_eta.
Qed.

(** The state after the blocks 0 .. len-1 were added in any order to a new
    buffer with room for them, and the first [k] of them were taken. *)
Lemma run_adds_then_gets bsize len (k : nat) (l : list Block) :
  is_unsigned bsize ->
  0 <= len <= bsize ->
  len <= INT_MAX + 1 ->
  Z.of_nat k <= len ->
  Z.of_nat k <= INT_MAX ->
  number <$> l ≡ₚ seqZ 0 len ->
  exists s,
    run ((CallAddBlock <$> l) ++ replicate k CallGetCurrentBlock) (start bsize) = Next s /\
    received s = blocks 0 (Z.of_nat k) /\
    parked s = None /\
    current_blocknum (obj s) = Z.of_nat k /\
    buffer_size (obj s) = bsize /\
    Z.of_nat (length (buffer (obj s))) = bsize /\
    (forall i, 0 <= i < len -> buffer (obj s) !! Z.to_nat i = Some (mkBlock i, 0)).
Proof.
  intros Hbs Hlen Hlen' Hk Hmax Hperm. destruct (adds_cover l len Hperm) as [Hnum Hall].
  unfold is_unsigned in Hbs. unfold INT_MAX, UINT_MAX in *.
  destruct (run_adds_low l (start bsize)) as (s1 & Hrun & Hp & Hr & Hc & Hs & Hl & Hslots).
  { apply (start_length bsize). lia. }
  { intros b Hb. specialize (Hnum b Hb).
    cbn [start obj buffer_size BlocksBuffer_new]. unfold INT_MAX. lia. }
  assert (forall i, 0 <= i < len -> buffer (obj s1) !! Z.to_nat i = Some (mkBlock i, 0))
    as Hfilled.
  { intros i Hi. destruct (Hslots (Z.to_nat i)) as [Hin _].
    rewrite Z2Nat.id in Hin by lia. apply Hin; [by apply Hall|].
    pose proof (start_length bsize). lia. }
  cbn in Hp, Hr, Hc, Hs.
  rewrite run_app, Hrun, run_gets_low; rewrite ?Hc, ?Hs; try done; unfold INT_MAX; try lia.
  - eexists. split; [done|]. cbn. rewrite Hr. repeat split; try done; try lia.
    rewrite Hl. apply (start_length bsize). lia.
  - intros i Hi. apply Hfilled. lia.
Qed.

End Ordering.

(** C1, as amended: for every K with 0 <= K < capacity and K < INT_MAX, after
    [AddBlock] calls on a new buffer whose blocks carry the numbers 0 .. K,
    each once and in any order, K+1 calls of [GetCurrentBlock] all return,
    and the blocks they return carry the numbers 0, 1, ..., K in that order,
    each number once. *)
Theorem C1_ordered_delivery (bsize K : Z) (l : list Block) :
  is_unsigned bsize ->
  0 <= K < bsize ->
  K < INT_MAX ->
  number <$> l ≡ₚ seqZ 0 (K + 1) ->
  exists s,
    run ((CallAddBlock <$> l) ++ replicate (Z.to_nat (K + 1)) CallGetCurrentBlock)
        (start bsize) = Next s /\
    parked s = None /\
    received s = blocks 0 (K + 1) /\
    number <$> received s = seqZ 0 (K + 1) /\
    NoDup (number <$> received s).
Proof.
  intros Hbs HK Hmax Hperm.
  destruct (run_adds_then_gets bsize (K + 1) (Z.to_nat (K + 1)) l)
    as (s & Hrun & Hrec & Hp & _); try done; try lia.
  exists s. rewrite Z2Nat.id in Hrec by lia.
  assert (number <$> received s = seqZ 0 (K + 1)) as Hnums
    by (by rewrite Hrec, numbers_of_blocks).
  repeat split; try done. rewrite Hnums. apply NoDup_seqZ.
Qed.

Lemma C1_ordered_delivery_witness :
  exists s,
    run ((CallAddBlock <$> [mkBlock 2; mkBlock 0; mkBlock 1])
           ++ replicate (Z.to_nat (2 + 1)) CallGetCurrentBlock) (start 4) = Next s /\
    parked s = None /\
    received s = blocks 0 (2 + 1) /\
    number <$> received s = seqZ 0 (2 + 1) /\
    NoDup (number <$> received s).
Proof.
  apply (C1_ordered_delivery 4 2 [mkBlock 2; mkBlock 0; mkBlock 1]).
  - unfold is_unsigned, UINT_MAX. lia.
  - lia.
  - unfold INT_MAX. lia.
  - apply (bool_decide_unpack _). vm_compute. exact I.
Defined.

Section Overflow.

(** With a capacity above INT_MAX the blocks 0 .. INT_MAX can all be added,
    and the call that is to return block INT_MAX overflows the cursor. *)
Lemma run_gets_overflow bsize (l : list Block) :
  is_unsigned bsize ->
  INT_MAX < bsize ->
  number <$> l ≡ₚ seqZ 0 (INT_MAX + 1) ->
  run ((CallAddBlock <$> l) ++ replicate (Z.to_nat (INT_MAX + 1)) CallGetCurrentBlock)
      (start bsize) = Faulted SignedOverflow.
Proof.
  intros Hbs Hlt Hperm.
  assert (0 <= INT_MAX) as Hpos by (unfold INT_MAX; lia).
  assert (INT_MAX < INT_MAX + 1) as Hlt1 by (unfold INT_MAX; lia).
  assert (Z.of_nat (Z.to_nat INT_MAX) = INT_MAX) as E by (apply Z2Nat.id; exact Hpos).
  rewrite Z.add_1_r, Z2Nat.inj_succ by exact Hpos.
  rewrite replicate_S_end, app_assoc, run_snoc.
  pose proof (run_adds_then_gets bsize (INT_MAX + 1) (Z.to_nat INT_MAX) l Hbs) as H.
  rewrite E in H.
  destruct H as (s & -> & _ & Hp & Hc & Hs & _ & Hslots);
    [lia | lia | lia | lia | exact Hperm |].
  unfold exec. rewrite Hp, GetCurrentBlock_unfold, Hs, Hc.
  destruct (Z.eqb_spec bsize 0) as [?|_]; [lia|].
  cbv zeta. rewrite index_of_nonneg, epoch_of_nonneg by lia.
  rewrite Z.mod_small, Z.div_small by lia.
  rewrite position_small by (unfold INT_MAX, UINT_MAX; lia).
  rewrite Hslots by lia. cbn [fst snd]. rewrite !Z.eqb_refl. reflexivity.
Qed.

End Overflow.

(** C1 as stated (for every K below the capacity) fails at capacity 2^31 and
    K = INT_MAX = 2147483647: the blocks 0 .. K are added in order, and the
    K+1 calls of [GetCurrentBlock] do not all return, because the last one
    increments [current_blocknum] past INT_MAX. *)
Lemma C1_counterexample :
  is_unsigned 2147483648 /\
  0 <= INT_MAX < 2147483648 /\
  number <$> blocks 0 (INT_MAX + 1) ≡ₚ seqZ 0 (INT_MAX + 1) /\
  run ((CallAddBlock <$> blocks 0 (INT_MAX + 1))
         ++ replicate (Z.to_nat (INT_MAX + 1)) CallGetCurrentBlock)
      (start 2147483648) = Faulted SignedOverflow.
Proof.
  assert (is_unsigned 2147483648) as Hu by (unfold is_unsigned, UINT_MAX; lia).
  assert (number <$> blocks 0 (INT_MAX + 1) ≡ₚ seqZ 0 (INT_MAX + 1)) as Hperm.
  { rewrite numbers_of_blocks. apply Permutation_refl. }
  split; [exact Hu|].
  split; [unfold INT_MAX; lia|].
  split; [exact Hperm|].
  apply run_gets_overflow; [exact Hu | unfold INT_MAX; lia | exact Hperm].
Qed.

(** ** Delivery without waiting *)

(** C2, as amended: in every state with [current_blocknum < INT_MAX] in
    which the slot at the index the code computes for [current_blocknum]
    carries the epoch the code computes for it, [GetCurrentBlock] returns
    that slot's block without waiting (no wait among its events) and leaves
    [current_blocknum] one higher.  When [current_blocknum] is not negative
    the index and the epoch are [current_blocknum mod buffer_size] and
    [current_blocknum / buffer_size]. *)
Theorem C2_delivers_at_once (bb : BlocksBuffer) (slot : Block * Z) :
  0 < buffer_size bb ->
  current_blocknum bb < INT_MAX ->
  buffer bb !! position (index_of (current_blocknum bb) (buffer_size bb)) = Some slot ->
  slot.2 = epoch_of (current_blocknum bb) (buffer_size bb) ->
  (exists bb',
     GetCurrentBlock bb =
       Ok (Delivered slot.1, bb',
           deliver_events (current_blocknum bb)
             (index_of (current_blocknum bb) (buffer_size bb))) /\
     current_blocknum bb' = current_blocknum bb + 1 /\
     buffer bb' = buffer bb /\ buffer_size bb' = buffer_size bb) /\
  (WaitCv ∉ deliver_events (current_blocknum bb)
              (index_of (current_blocknum bb) (buffer_size bb))) /\
  (0 <= current_blocknum bb ->
   position (index_of (current_blocknum bb) (buffer_size bb))
     = Z.to_nat (current_blocknum bb mod buffer_size bb) /\
   epoch_of (current_blocknum bb) (buffer_size bb) = current_blocknum bb / buffer_size bb).
Proof.
  intros Hbs Hcur Hslot Hepoch. split; [|split].
  - exists (set_blocknum bb (current_blocknum bb + 1)).
    rewrite GetCurrentBlock_unfold.
    destruct (Z.eqb_spec (buffer_size bb) 0) as [?|_]; [lia|].
    cbv zeta. rewrite Hslot, Hepoch, Z.eqb_refl.
    destruct (Z.eqb_spec (current_blocknum bb) INT_MAX) as [?|_]; [lia|]. done.
  - unfold deliver_events. intros Hin.
    repeat (apply elem_of_cons in Hin as [Hin|Hin]; [discriminate Hin|]).
    by apply elem_of_nil in Hin.
  - intros Hnn. split.
    + rewrite index_of_nonneg by lia. apply position_small.
      pose proof (Z.mod_pos_bound (current_blocknum bb) (buffer_size bb) Hbs).
      assert (current_blocknum bb mod buffer_size bb <= current_blocknum bb)
        by (apply Z.mod_le; lia).
      unfold INT_MAX, UINT_MAX in *. lia.
    + apply epoch_of_nonneg; lia.
Qed.

Lemma C2_delivers_at_once_witness :
  let bb := {| buffer_size := 4;
               buffer := [default_slot; (mkBlock 5, 1); default_slot; default_slot];
               current_blocknum := 5 |} in
  (exists bb',
     GetCurrentBlock bb = Ok (Delivered (mkBlock 5), bb', deliver_events 5 (index_of 5 4)) /\
     current_blocknum bb' = 5 + 1 /\
     buffer bb' = buffer bb /\ buffer_size bb' = 4) /\
  (WaitCv ∉ deliver_events 5 (index_of 5 4)) /\
  (0 <= 5 -> position (index_of 5 4) = Z.to_nat (5 mod 4) /\ epoch_of 5 4 = 5 / 4).
Proof.
  apply (C2_delivers_at_once
           {| buffer_size := 4;
              buffer := [default_slot; (mkBlock 5, 1); default_slot; default_slot];
              current_blocknum := 5 |} (mkBlock 5, 1)).
  - simpl. lia.
  - simpl. unfold INT_MAX. lia.
  - reflexivity.
  - reflexivity.
Defined.

(** C2 as stated fails at [current_blocknum = INT_MAX]: after
    [SetCurrentBlocknum(INT_MAX)] and [AddBlock(Block(INT_MAX))] on a new
    buffer of capacity 100 the slot at index [INT_MAX mod 100] carries the
    epoch [INT_MAX / 100], yet [GetCurrentBlock] has no state with
    [current_blocknum = INT_MAX + 1] to end in: the increment overflows.
    It also fails for a negative [current_blocknum] when the index and the
    epoch are read as the mathematical remainder and quotient: after
    [SetCurrentBlocknum(-1)] on a new buffer of capacity 100 the slot at
    index [-1 mod 100 = 99] carries the epoch [-1 / 100 = -1], and
    [GetCurrentBlock] waits, on index 95. *)
Lemma C2_counterexample :
  (exists s,
     run [CallSetCurrentBlocknum INT_MAX; CallAddBlock (mkBlock INT_MAX)] (start 100) = Next s /\
     wf (obj s) /\
     buffer (obj s) !! Z.to_nat (current_blocknum (obj s) mod buffer_size (obj s))
       = Some (mkBlock INT_MAX, current_blocknum (obj s) / buffer_size (obj s)) /\
     GetCurrentBlock (obj s) = Undefined SignedOverflow /\
     ~ (exists b bb' tr,
          GetCurrentBlock (obj s) = Ok (Delivered b, bb', tr) /\
          current_blocknum bb' = current_blocknum (obj s) + 1)) /\
  (exists s,
     run [CallSetCurrentBlocknum (-1)] (start 100) = Next s /\
     wf (obj s) /\
     buffer (obj s) !! Z.to_nat (current_blocknum (obj s) mod buffer_size (obj s))
       = Some (mkBlock 0, current_blocknum (obj s) / buffer_size (obj s)) /\
     GetCurrentBlock (obj s) = Ok (Parked 95, obj s, park_events (-1) 95)).
Proof.
  split.
  - eexists. split; [vm_compute; reflexivity|].
    match goal with
    | |- context [GetCurrentBlock ?bb = Undefined _] =>
        assert (GetCurrentBlock bb = Undefined SignedOverflow) as Hget
          by (vm_compute; reflexivity)
    end.
    split; [|split; [|split]].
    + split; vm_compute; try reflexivity; split; discriminate.
    + vm_compute. reflexivity.
    + exact Hget.
    + intros (b & bb' & tr & Hok & _). rewrite Hget in Hok. discriminate Hok.
  - eexists. split; [vm_compute; reflexivity|]. split; [|split].
    + split; vm_compute; try reflexivity; split; discriminate.
    + vm_compute. reflexivity.
    + vm_compute. reflexivity.
Qed.

(** ** Wrap-around *)

(** C3: with capacity 4, adding the blocks 0,1,2,3 to a new buffer, taking
    four blocks, adding 4,5,6,7 and taking four more returns 0,1,2,3 and
    then 4,5,6,7 in order; every slot is reused with epoch 1.  It is the
    epoch that tells the two rounds apart: after the first round, while
    only the first [j] of the blocks 4,5,6,7 are added ([j] = 0, 1, 2, 3),
    [j + 1] calls of [GetCurrentBlock] return those [j] blocks and the last
    call waits on slot [j], which still holds block [j] of the first round
    with epoch 0; that block is not returned a second time. *)
Theorem C3_wrap_around :
  exists s1 s2,
    run ((CallAddBlock <$> blocks 0 4) ++ replicate 4 CallGetCurrentBlock) (start 4) = Next s1 /\
    received s1 = [mkBlock 0; mkBlock 1; mkBlock 2; mkBlock 3] /\
    run ((CallAddBlock <$> blocks 4 4) ++ replicate 4 CallGetCurrentBlock) s1 = Next s2 /\
    received s2 = received s1 ++ [mkBlock 4; mkBlock 5; mkBlock 6; mkBlock 7] /\
    parked s2 = None /\
    buffer (obj s2) = [(mkBlock 4, 1); (mkBlock 5, 1); (mkBlock 6, 1); (mkBlock 7, 1)] /\
    Forall (fun j : nat =>
              exists s,
                run ((CallAddBlock <$> blocks 4 (Z.of_nat j))
                       ++ replicate (S j) CallGetCurrentBlock) s1 = Next s /\
                received s = received s1 ++ blocks 4 (Z.of_nat j) /\
                parked s = Some (Z.of_nat j) /\
                current_blocknum (obj s) = 4 + Z.of_nat j /\
                buffer (obj s) !! j = Some (mkBlock (Z.of_nat j), 0))
           [0; 1; 2; 3]%nat.
Proof.
  eexists. eexists.
  split; [vm_compute; reflexivity|].
  split; [reflexivity|].
  split; [vm_compute; reflexivity|].
  split; [reflexivity|]. split; [reflexivity|]. split; [reflexivity|].
  repeat (apply Forall_cons; split;
          [eexists; split; [vm_compute; reflexivity|]; repeat split|]).
  apply Forall_nil. exact I.
Qed.

(** ** The locking discipline of [AddBlock] *)

Section Locking.

(** The reads of a slot in [GetCurrentBlock] all happen under
    [current_slot_mutex]. *)
Lemma GetCurrentBlock_reads_guarded cur index :
  slot_accesses_guarded false (deliver_events cur index) = true /\
  slot_accesses_guarded false (park_events cur index) = true /\
  slot_accesses_guarded true (wake_events index) = true.
Proof. repeat split. Qed.

(** The write of [AddBlock] happens under [current_slot_mutex] exactly when
    the block is the one [current_blocknum] names. *)
Lemma AddBlock_guarded b bb bb' tr :
  AddBlock b bb = Ok (tt, bb', tr) ->
  slot_accesses_guarded false tr = (number b =? current_blocknum bb).
Proof.
  rewrite AddBlock_unfold. destruct (buffer_size bb =? 0); [done|]. cbv zeta.
  destruct (buffer bb !! _); [|done]. intros [= _ <-].
  by destruct (number b =? current_blocknum bb).
Qed.

End Locking.

(** C4 does not hold of the code: on a new buffer of capacity 100, where
    [current_blocknum] is 0, [AddBlock(Block(5))] writes slot 5 and its only
    events are the read of [current_blocknum] and that write; no mutex is
    acquired, whereas [AddBlock(Block(0))] brackets the same kind of write
    with [current_slot_mutex]. *)
Theorem C4_untargeted_write_unguarded :
  (exists bb',
     AddBlock (mkBlock 5) (BlocksBuffer_new 100) = Ok (tt, bb', [BlocknumRead; SlotWrite 5]) /\
     buffer bb' !! 5%nat = Some (mkBlock 5, 0) /\
     slot_accesses_guarded false [BlocknumRead; SlotWrite 5] = false) /\
  (exists bb' tr,
     AddBlock (mkBlock 0) (BlocksBuffer_new 100) = Ok (tt, bb', tr) /\
     slot_accesses_guarded false tr = true).
Proof.
  split.
  - eexists. split; [vm_compute; reflexivity|]. split; reflexivity.
  - eexists. eexists. split; [vm_compute; reflexivity|]. reflexivity.
Qed.

(** ** Indices and negative numbers *)

Section Indices.

Lemma BlocksBuffer_new_wf bsize : is_unsigned bsize -> wf (BlocksBuffer_new bsize).
Proof.
  intros Hbs. split.
  - exact Hbs.
  - unfold BlocksBuffer_new. cbn [buffer buffer_size]. rewrite length_replicate.
    unfold is_unsigned in Hbs. lia.
  - unfold BlocksBuffer_new, is_int, INT_MIN, INT_MAX. cbn [current_blocknum]. lia.
Qed.

(** With a capacity of at most 2^31 the index designates a slot. *)
Lemma position_in_range n (bb : BlocksBuffer) :
  Z.of_nat (length (buffer bb)) = buffer_size bb ->
  0 < buffer_size bb <= 2147483648 ->
  position (index_of n (buffer_size bb)) = Z.to_nat (to_unsigned n mod buffer_size bb) /\
  (position (index_of n (buffer_size bb)) < length (buffer bb))%nat.
Proof.
  intros Hlen Hbs. pose proof (index_of_bounds n (buffer_size bb) Hbs) as Hidx.
  rewrite position_small by (unfold UINT_MAX; lia).
  rewrite <- index_of_fits by done. split; [done|]. lia.
Qed.

(** A negative [int index] designates no slot. *)
Lemma position_negative index (bb : BlocksBuffer) :
  Z.of_nat (length (buffer bb)) = buffer_size bb ->
  is_unsigned (buffer_size bb) ->
  INT_MIN <= index < 0 ->
  buffer bb !! position index = None.
Proof.
  unfold is_unsigned, UINT_MAX. intros Hlen Hbs Hidx. apply lookup_ge_None_2.
  unfold position. rewrite to_size_t_neg by done. unfold INT_MIN in Hidx. lia.
Qed.

Lemma AddBlock_defined b bb :
  Z.of_nat (length (buffer bb)) = buffer_size bb ->
  0 < buffer_size bb <= 2147483648 ->
  AddBlock b bb =
  Ok (tt,
      set_slot bb (index_of (number b) (buffer_size bb))
        (b, epoch_of (number b) (buffer_size bb)),
      AddBlock_events (number b =? current_blocknum bb)
        (index_of (number b) (buffer_size bb))).
Proof.
  intros Hlen Hbs. rewrite AddBlock_unfold.
  destruct (Z.eqb_spec (buffer_size bb) 0) as [?|_]; [lia|]. cbv zeta.
  destruct (position_in_range (number b) bb Hlen Hbs) as [_ Hlt].
  by destruct (lookup_lt_is_Some_2 _ _ Hlt) as [x ->].
Qed.

Lemma AddBlock_negative_index b bb :
  wf bb ->
  buffer_size bb <> 0 ->
  index_of (number b) (buffer_size bb) < 0 ->
  AddBlock b bb = Undefined OutOfRange.
Proof.
  intros [Hbs Hlen _] Hnz Hneg. rewrite AddBlock_unfold.
  destruct (Z.eqb_spec (buffer_size bb) 0) as [?|_]; [lia|]. cbv zeta.
  rewrite position_negative; [done..|].
  pose proof (to_int_range (to_unsigned (number b) mod buffer_size bb)) as [Hlo _].
  fold (index_of (number b) (buffer_size bb)) in Hlo. lia.
Qed.

Lemma GetCurrentBlock_negative_index bb :
  wf bb ->
  buffer_size bb <> 0 ->
  index_of (current_blocknum bb) (buffer_size bb) < 0 ->
  GetCurrentBlock bb = Undefined OutOfRange.
Proof.
  intros [Hbs Hlen _] Hnz Hneg. rewrite GetCurrentBlock_unfold.
  destruct (Z.eqb_spec (buffer_size bb) 0) as [?|_]; [lia|]. cbv zeta.
  rewrite position_negative; [done..|].
  pose proof (to_int_range (to_unsigned (current_blocknum bb) mod buffer_size bb)) as [Hlo _].
  fold (index_of (current_blocknum bb) (buffer_size bb)) in Hlo. lia.
Qed.

Lemma set_slot_lookup bb index s :
  (position index < length (buffer bb))%nat ->
  buffer (set_slot bb index s) !! position index = Some s.
Proof. intros. unfold set_slot. cbn [buffer]. by apply list_lookup_insert_eq. Qed.

End Indices.

(** C6, as amended: [AddBlock] has no check of the number and rejects
    nothing.  On a buffer with a capacity from 1 to 2^31, a block with a
    negative number [n] is stored like any other: the call completes and
    the slot at index [(n + 2^32) mod buffer_size] then holds the block with
    the epoch [(n + 2^32) / buffer_size] converted to [int]. *)
Theorem C6_negative_number_is_stored (bb : BlocksBuffer) (b : Block) :
  wf bb ->
  0 < buffer_size bb <= 2147483648 ->
  INT_MIN <= number b < 0 ->
  exists bb' tr,
    AddBlock b bb = Ok (tt, bb', tr) /\
    0 <= (number b + 4294967296) mod buffer_size bb < buffer_size bb /\
    buffer bb' !! Z.to_nat ((number b + 4294967296) mod buffer_size bb)
      = Some (b, to_int ((number b + 4294967296) / buffer_size bb)) /\
    SlotWrite ((number b + 4294967296) mod buffer_size bb) ∈ tr.
Proof.
  intros [Hbs Hlen _] Hcap Hneg.
  destruct (position_in_range (number b) bb Hlen Hcap) as [Hpos Hlt].
  pose proof (index_of_fits (number b) (buffer_size bb) Hcap) as Hidx.
  rewrite to_unsigned_neg in Hpos, Hidx by done.
  do 2 eexists. split; [by apply AddBlock_defined|].
  split; [apply Z.mod_pos_bound; lia|]. split.
  - rewrite <- Hpos, set_slot_lookup by done. unfold epoch_of.
    by rewrite to_unsigned_neg by done.
  - rewrite Hidx. unfold AddBlock_events.
    destruct (number b =? current_blocknum bb); repeat first [by left | right].
Qed.

Lemma C6_negative_number_is_stored_witness :
  exists bb' tr,
    AddBlock (mkBlock (-1)) (BlocksBuffer_new 100) = Ok (tt, bb', tr) /\
    0 <= (number (mkBlock (-1)) + 4294967296) mod buffer_size (BlocksBuffer_new 100)
      < buffer_size (BlocksBuffer_new 100) /\
    buffer bb' !! Z.to_nat ((number (mkBlock (-1)) + 4294967296)
                              mod buffer_size (BlocksBuffer_new 100))
      = Some (mkBlock (-1),
              to_int ((number (mkBlock (-1)) + 4294967296)
                        / buffer_size (BlocksBuffer_new 100))) /\
    SlotWrite ((number (mkBlock (-1)) + 4294967296) mod buffer_size (BlocksBuffer_new 100)) ∈ tr.
Proof.
  apply (C6_negative_number_is_stored (BlocksBuffer_new 100) (mkBlock (-1))).
  - apply BlocksBuffer_new_wf. unfold is_unsigned, UINT_MAX. lia.
  - simpl. lia.
  - unfold INT_MIN. simpl. lia.
Defined.

(** C6 as stated fails: on a new buffer of capacity 100,
    [AddBlock(Block(-1))] completes without an error and overwrites slot 95
    with the block and the epoch 42949672. *)
Lemma C6_counterexample :
  number (mkBlock (-1)) < 0 /\
  exists bb' tr,
    AddBlock (mkBlock (-1)) (BlocksBuffer_new 100) = Ok (tt, bb', tr) /\
    buffer (BlocksBuffer_new 100) !! 95%nat = Some default_slot /\
    buffer bb' !! 95%nat = Some (mkBlock (-1), 42949672) /\
    buffer bb' <> buffer (BlocksBuffer_new 100).
Proof.
  split; [reflexivity|]. do 2 eexists.
  split; [vm_compute; reflexivity|].
  split; [reflexivity|]. split; [reflexivity|].
  intros Heq. apply (f_equal (fun buf => buf !! 95%nat)) in Heq. discriminate Heq.
Qed.

(** C7, as amended: on a buffer with a capacity from 1 to 2^31, for every
    [int] number, negative or not, the index [AddBlock] computes is the
    remainder of the number converted to [unsigned int] (for a negative
    number [n], of [n + 2^32]); it lies in [0, buffer_size), it designates a
    slot of the vector, and the call completes. *)
Theorem C7_index_in_range (bb : BlocksBuffer) (b : Block) :
  wf bb ->
  0 < buffer_size bb <= 2147483648 ->
  is_int (number b) ->
  0 <= index_of (number b) (buffer_size bb) < buffer_size bb /\
  index_of (number b) (buffer_size bb) = to_unsigned (number b) mod buffer_size bb /\
  (number b < 0 -> to_unsigned (number b) = number b + 4294967296) /\
  (0 <= number b -> to_unsigned (number b) = number b) /\
  (position (index_of (number b) (buffer_size bb)) < length (buffer bb))%nat /\
  exists bb' tr,
    AddBlock b bb = Ok (tt, bb', tr) /\
    buffer bb' !! position (index_of (number b) (buffer_size bb))
      = Some (b, epoch_of (number b) (buffer_size bb)) /\
    length (buffer bb') = length (buffer bb).
Proof.
  intros [Hbs Hlen _] Hcap [Hlo Hhi].
  destruct (position_in_range (number b) bb Hlen Hcap) as [Hpos Hlt].
  split; [by apply index_of_bounds|].
  split; [by apply index_of_fits|].
  split; [intros; apply to_unsigned_neg; lia|].
  split; [intros; apply to_unsigned_nonneg; unfold INT_MAX, UINT_MAX in *; lia|].
  split; [done|].
  do 2 eexists. split; [by apply AddBlock_defined|]. split.
  - by apply set_slot_lookup.
  - unfold set_slot. cbn [buffer]. apply length_insert.
Qed.

Lemma C7_index_in_range_witness :
  let bb := BlocksBuffer_new 100 in
  let b := mkBlock (-1) in
  0 <= index_of (number b) (buffer_size bb) < buffer_size bb /\
  index_of (number b) (buffer_size bb) = to_unsigned (number b) mod buffer_size bb /\
  (number b < 0 -> to_unsigned (number b) = number b + 4294967296) /\
  (0 <= number b -> to_unsigned (number b) = number b) /\
  (position (index_of (number b) (buffer_size bb)) < length (buffer bb))%nat /\
  exists bb' tr,
    AddBlock b bb = Ok (tt, bb', tr) /\
    buffer bb' !! position (index_of (number b) (buffer_size bb))
      = Some (b, epoch_of (number b) (buffer_size bb)) /\
    length (buffer bb') = length (buffer bb).
Proof.
  apply (C7_index_in_range (BlocksBuffer_new 100) (mkBlock (-1))).
  - apply BlocksBuffer_new_wf. unfold is_unsigned, UINT_MAX. lia.
  - simpl. lia.
  - unfold is_int, INT_MIN, INT_MAX. simpl. lia.
Defined.

(** C7 as stated fails for a capacity above 2^31: with capacity 4000000000
    and the number -1294967296 the remainder 3000000000 does not fit
    [int index], which becomes -1294967296, and [buffer[index]] is an access
    out of range. *)
Lemma C7_counterexample :
  wf (BlocksBuffer_new 4000000000) /\
  is_int (number (mkBlock (-1294967296))) /\
  to_unsigned (-1294967296) mod 4000000000 = 3000000000 /\
  index_of (-1294967296) 4000000000 = -1294967296 /\
  AddBlock (mkBlock (-1294967296)) (BlocksBuffer_new 4000000000) = Undefined OutOfRange.
Proof.
  assert (wf (BlocksBuffer_new 4000000000)) as Hwf
    by (apply BlocksBuffer_new_wf; unfold is_unsigned, UINT_MAX; lia).
  assert (index_of (-1294967296) 4000000000 = -1294967296) as Hidx by reflexivity.
  split; [exact Hwf|].
  split; [unfold is_int, INT_MIN, INT_MAX, number; cbn [number_]; lia|].
  split; [reflexivity|]. split; [exact Hidx|].
  apply AddBlock_negative_index; [exact Hwf| |].
  - cbn [BlocksBuffer_new buffer_size]. lia.
  - cbn [BlocksBuffer_new buffer_size number number_]. rewrite Hidx. lia.
Qed.

(** ** A negative cursor *)

Lemma wf_set_blocknum bb n : wf bb -> is_int n -> wf (set_blocknum bb n).
Proof. intros [H1 H2 _] Hn. by split. Qed.

(** C10, as amended: on a buffer with a capacity from 1 to 2^31, after
    [SetCurrentBlocknum] with a negative [int] [n] the next
    [GetCurrentBlock] computes its index and epoch from [n + 2^32], the
    index lies in [0, buffer_size) and designates a slot, and the call is
    defined: it returns that slot's block or waits on that index.  For
    [n = -1] and capacity 100 the index is 95 and the epoch 42949672. *)
Theorem C10_negative_cursor (bb : BlocksBuffer) (n : Z) :
  wf bb ->
  0 < buffer_size bb <= 2147483648 ->
  INT_MIN <= n < 0 ->
  exists bb1 tr1,
    SetCurrentBlocknum n bb = Ok (tt, bb1, tr1) /\
    current_blocknum bb1 = n /\
    index_of n (buffer_size bb1) = (n + 4294967296) mod buffer_size bb /\
    0 <= index_of n (buffer_size bb1) < buffer_size bb /\
    epoch_of n (buffer_size bb1) = to_int ((n + 4294967296) / buffer_size bb) /\
    (exists slot,
       buffer bb1 !! position (index_of n (buffer_size bb1)) = Some slot /\
       exists d bb2 tr2,
         GetCurrentBlock bb1 = Ok (d, bb2, tr2) /\
         d = (if slot.2 =? epoch_of n (buffer_size bb1)
              then Delivered slot.1
              else Parked (index_of n (buffer_size bb1)))) /\
    index_of (-1) 100 = 95 /\ epoch_of (-1) 100 = 42949672.
Proof.
  intros [Hbs Hlen Hcur] Hcap Hneg.
  exists (set_blocknum bb n). eexists. split; [apply SetCurrentBlocknum_unfold|].
  cbn [set_blocknum current_blocknum buffer_size buffer].
  destruct (position_in_range n bb Hlen Hcap) as [Hpos Hlt].
  pose proof (index_of_fits n (buffer_size bb) Hcap) as Hidx.
  pose proof (index_of_bounds n (buffer_size bb) Hcap) as Hrange.
  rewrite to_unsigned_neg in Hidx by done.
  split; [done|]. split; [done|]. split; [done|].
  split; [unfold epoch_of; by rewrite to_unsigned_neg by done|].
  split; [|by split].
  destruct (lookup_lt_is_Some_2 _ _ Hlt) as [slot Hslot].
  exists slot. split; [done|].
  rewrite GetCurrentBlock_unfold. cbn [set_blocknum current_blocknum buffer_size buffer].
  destruct (Z.eqb_spec (buffer_size bb) 0) as [?|_]; [lia|]. cbv zeta. rewrite Hslot.
  destruct (slot.2 =? epoch_of n (buffer_size bb)); [|by do 3 eexists].
  destruct (Z.eqb_spec n INT_MAX) as [?|_]; [unfold INT_MAX in *; lia|]. by do 3 eexists.
Qed.

Lemma C10_negative_cursor_witness :
  exists bb1 tr1,
    SetCurrentBlocknum (-1) (BlocksBuffer_new 100) = Ok (tt, bb1, tr1) /\
    current_blocknum bb1 = -1 /\
    index_of (-1) (buffer_size bb1)
      = (-1 + 4294967296) mod buffer_size (BlocksBuffer_new 100) /\
    0 <= index_of (-1) (buffer_size bb1) < buffer_size (BlocksBuffer_new 100) /\
    epoch_of (-1) (buffer_size bb1)
      = to_int ((-1 + 4294967296) / buffer_size (BlocksBuffer_new 100)) /\
    (exists slot,
       buffer bb1 !! position (index_of (-1) (buffer_size bb1)) = Some slot /\
       exists d bb2 tr2,
         GetCurrentBlock bb1 = Ok (d, bb2, tr2) /\
         d = (if slot.2 =? epoch_of (-1) (buffer_size bb1)
              then Delivered slot.1
              else Parked (index_of (-1) (buffer_size bb1)))) /\
    index_of (-1) 100 = 95 /\ epoch_of (-1) 100 = 42949672.
Proof.
  apply (C10_negative_cursor (BlocksBuffer_new 100) (-1)).
  - apply BlocksBuffer_new_wf. unfold is_unsigned, UINT_MAX. lia.
  - simpl. lia.
  - unfold INT_MIN. lia.
Defined.

(** C10 as stated fails for a capacity above 2^31: with capacity 4000000000,
    after [SetCurrentBlocknum(-1294967296)] the index [GetCurrentBlock]
    computes is -1294967296, a negative index, and [buffer[index]] is an
    access out of range. *)
Lemma C10_counterexample :
  wf (BlocksBuffer_new 4000000000) /\
  is_int (-1294967296) /\
  exists bb1 tr1,
    SetCurrentBlocknum (-1294967296) (BlocksBuffer_new 4000000000) = Ok (tt, bb1, tr1) /\
    index_of (current_blocknum bb1) (buffer_size bb1) = -1294967296 /\
    GetCurrentBlock bb1 = Undefined OutOfRange.
Proof.
  assert (wf (BlocksBuffer_new 4000000000)) as Hwf
    by (apply BlocksBuffer_new_wf; unfold is_unsigned, UINT_MAX; lia).
  assert (is_int (-1294967296)) as Hint by (unfold is_int, INT_MIN, INT_MAX; lia).
  assert (index_of (-1294967296) 4000000000 = -1294967296) as Hidx by reflexivity.
  split; [exact Hwf|]. split; [exact Hint|].
  exists (set_blocknum (BlocksBuffer_new 4000000000) (-1294967296)). eexists.
  split; [apply SetCurrentBlocknum_unfold|].
  cbn [set_blocknum BlocksBuffer_new current_blocknum buffer_size].
  split; [exact Hidx|].
  apply GetCurrentBlock_negative_index.
  - apply (wf_set_blocknum _ _ Hwf Hint).
  - cbn [set_blocknum BlocksBuffer_new buffer_size]. lia.
  - cbn [set_blocknum BlocksBuffer_new current_blocknum buffer_size]. rewrite Hidx. lia.
Qed.

(** ** What each operation leaves alone *)

(** C8: [AddBlock] leaves [current_blocknum] (and the capacity) as they are
    and changes no slot but the one at its index; [GetCurrentBlock], before
    and after its wait, leaves every slot as it is; [SetCurrentBlocknum]
    completes on every buffer, sets [current_blocknum] and leaves the whole
    vector as it is. *)
Theorem C8_frame (bb : BlocksBuffer) :
  (forall b u bb' tr,
     AddBlock b bb = Ok (u, bb', tr) ->
     current_blocknum bb' = current_blocknum bb /\
     buffer_size bb' = buffer_size bb /\
     length (buffer bb') = length (buffer bb) /\
     (forall pos : nat,
        pos <> position (index_of (number b) (buffer_size bb)) ->
        buffer bb' !! pos = buffer bb !! pos) /\
     (0 <= number b <= INT_MAX -> 0 < buffer_size bb ->
      position (index_of (number b) (buffer_size bb))
        = Z.to_nat (number b mod buffer_size bb))) /\
  (forall d bb' tr,
     GetCurrentBlock bb = Ok (d, bb', tr) ->
     buffer bb' = buffer bb /\ buffer_size bb' = buffer_size bb) /\
  (forall index b bb' tr,
     GetCurrentBlock_wake index bb = Ok (b, bb', tr) ->
     buffer bb' = buffer bb /\ buffer_size bb' = buffer_size bb) /\
  (forall n, exists u bb' tr,
     SetCurrentBlocknum n bb = Ok (u, bb', tr) /\
     current_blocknum bb' = n /\
     buffer bb' = buffer bb /\ buffer_size bb' = buffer_size bb).
Proof.
  split; [|split; [|split]].
  - intros b u bb' tr. rewrite AddBlock_unfold.
    destruct (Z.eqb_spec (buffer_size bb) 0) as [|Hnz]; [done|]. cbv zeta.
    destruct (buffer bb !! _) eqn:Hslot; [|done]. intros [= _ <- _].
    unfold set_slot. cbn [current_blocknum buffer_size buffer].
    split; [done|]. split; [done|]. split; [apply length_insert|]. split.
    + intros pos Hpos. by apply list_lookup_insert_ne.
    + intros Hb Hpos. rewrite index_of_nonneg by done. apply position_small.
      pose proof (Z.mod_pos_bound (number b) (buffer_size bb) Hpos).
      assert (number b mod buffer_size bb <= number b) by (apply Z.mod_le; lia).
      unfold INT_MAX, UINT_MAX in *. lia.
  - intros d bb' tr. rewrite GetCurrentBlock_unfold.
    destruct (buffer_size bb =? 0); [done|]. cbv zeta.
    destruct (buffer bb !! _) as [s|]; [|done].
    destruct (s.2 =? _); [destruct (_ =? INT_MAX); [done|]|]; by intros [= _ <- _].
  - intros index b bb' tr. rewrite GetCurrentBlock_wake_unfold.
    destruct (_ =? INT_MAX); [done|].
    destruct (buffer bb !! _) as [s|]; [|done]. by intros [= _ <- _].
  - intros n. rewrite SetCurrentBlocknum_unfold. by do 3 eexists.
Qed.

Lemma C8_frame_witness :
  let bb := {| buffer_size := 4;
               buffer := [(mkBlock 4, 1); default_slot; default_slot; default_slot];
               current_blocknum := 4 |} in
  (exists bb',
     AddBlock (mkBlock 6) bb = Ok (tt, bb', [BlocknumRead; SlotWrite 2]) /\
     current_blocknum bb' = 4 /\
     forall pos : nat, pos <> 2%nat -> buffer bb' !! pos = buffer bb !! pos) /\
  (exists bb',
     GetCurrentBlock bb = Ok (Delivered (mkBlock 4), bb', deliver_events 4 0) /\
     buffer bb' = buffer bb).
Proof.
  intros bb. destruct (C8_frame bb) as (Hadd & Hget & _ & _). split.
  - eexists. split; [reflexivity|].
    destruct (Hadd (mkBlock 6) tt _ _ eq_refl) as (Hcur & _ & _ & Hslots & _).
    split; [exact Hcur|]. exact Hslots.
  - eexists. split; [reflexivity|].
    destruct (Hget _ _ _ eq_refl) as [Hbuf _]. exact Hbuf.
Defined.

(** ** The slots and the history *)

Section Invariant.

Lemma last_added_snoc bsize pos h o :
  last_added bsize pos (h ++ [o]) =
  match o with
  | CallAddBlock b =>
      if decide (position (index_of (number b) bsize) = pos) then Some b
      else last_added bsize pos h
  | _ => last_added bsize pos h
  end.
Proof.
  induction h as [|o' h IH]; cbn [app last_added].
  - by destruct o as [b| | |n].
  - rewrite IH. destruct o as [b| | |n]; try done.
    by destruct (decide (position (index_of (number b) bsize) = pos)).
Qed.

Lemma last_added_Some bsize pos h b :
  last_added bsize pos h = Some b ->
  CallAddBlock b ∈ h /\ position (index_of (number b) bsize) = pos.
Proof.
  induction h as [|o h IH]; cbn [last_added]; [done|].
  destruct (last_added bsize pos h) as [b'|].
  - intros [= ->]. destruct IH as [Hin Hpos]; [done|]. split; [by right|done].
  - destruct o as [b'| | |n]; try done.
    destruct (decide _) as [Hpos|]; [|done]. intros [= ->]. split; [by left|done].
Qed.

(** One call keeps the class invariant and changes the vector only by the
    write of [AddBlock]. *)
Lemma exec_effect o s s' :
  op_typed o ->
  wf (obj s) ->
  exec o s = Next s' ->
  wf (obj s') /\
  buffer_size (obj s') = buffer_size (obj s) /\
  buffer (obj s') =
    match o with
    | CallAddBlock b =>
        <[position (index_of (number b) (buffer_size (obj s)))
            := (b, epoch_of (number b) (buffer_size (obj s)))]> (buffer (obj s))
    | _ => buffer (obj s)
    end.
Proof.
  intros Hty [Hbs Hlen Hcur]. unfold exec.
  destruct o as [b| | |n]; cbn [op_typed] in Hty.
  - rewrite AddBlock_unfold.
    destruct (Z.eqb_spec (buffer_size (obj s)) 0) as [|Hnz]; [done|]. cbv zeta.
    destruct (buffer (obj s) !! _); [|done]. intros [= <-].
    cbn [obj set_slot buffer buffer_size current_blocknum].
    split; [|done]. split; unfold set_slot; cbn [buffer buffer_size current_blocknum];
      try done.
    by rewrite length_insert.
  - destruct (parked s); [done|]. rewrite GetCurrentBlock_unfold.
    destruct (Z.eqb_spec (buffer_size (obj s)) 0) as [|Hnz]; [done|]. cbv zeta.
    destruct (buffer (obj s) !! _) as [slot|]; [|done].
    destruct (slot.2 =? _).
    + destruct (Z.eqb_spec (current_blocknum (obj s)) INT_MAX) as [|Hmax]; [done|].
      intros [= <-]. cbn [obj set_blocknum buffer buffer_size current_blocknum].
      split; [|done]. split; unfold set_blocknum; cbn [buffer buffer_size current_blocknum];
        try done.
      unfold is_int, INT_MAX in *. lia.
    + intros [= <-]. cbn [obj]. by split.
  - destruct (parked s) as [index|]; [|done]. rewrite GetCurrentBlock_wake_unfold.
    destruct (Z.eqb_spec (current_blocknum (obj s)) INT_MAX) as [|Hmax]; [done|].
    destruct (buffer (obj s) !! _) as [slot|]; [|done].
    intros [= <-]. cbn [obj set_blocknum buffer buffer_size current_blocknum].
    split; [|done]. split; unfold set_blocknum; cbn [buffer buffer_size current_blocknum];
      try done.
    unfold is_int, INT_MAX in *. lia.
  - destruct (parked s); [done|]. rewrite SetCurrentBlocknum_unfold.
    intros [= <-]. cbn [obj set_blocknum buffer buffer_size current_blocknum].
    split; [|done]. by split.
Qed.

Lemma run_invariant bsize h s :
  is_unsigned bsize ->
  Forall op_typed h ->
  Forall op_adds_nonneg h ->
  run h (start bsize) = Next s ->
  wf (obj s) /\ buffer_size (obj s) = bsize /\
  slots_track_history bsize h (buffer (obj s)).
Proof.
  intros Hbs. revert s. induction h as [|o h IH] using rev_ind; intros s Hty Hnn.
  - intros [= <-]. split; [by apply BlocksBuffer_new_wf|]. split; [done|].
    intros pos slot Hslot. cbn [last_added].
    cbn [start obj BlocksBuffer_new buffer] in Hslot.
    by apply lookup_replicate_1 in Hslot as [-> _].
  - apply Forall_app in Hty as [Hty Hty1]. apply Forall_app in Hnn as [Hnn Hnn1].
    apply Forall_inv in Hty1. apply Forall_inv in Hnn1. rewrite run_snoc.
    destruct (run h (start bsize)) as [s0| |] eqn:Hrun; [|done..].
    destruct (IH s0) as (Hwf & Hsize & Hinv); [done..|]. intros Hexec.
    destruct (exec_effect o s0 s Hty1 Hwf Hexec) as (Hwf' & Hsize' & Hbuf).
    split; [done|]. split; [congruence|].
    intros pos slot Hslot. rewrite last_added_snoc. rewrite Hbuf in Hslot.
    destruct o as [b| | |n]; try by apply Hinv.
    rewrite Hsize in Hslot. cbn [op_typed op_adds_nonneg] in Hty1, Hnn1.
    assert (0 < bsize) as Hpos.
    { destruct Hwf as [Hbs0 Hlen0 _]. pose proof (lookup_lt_Some _ _ _ Hslot) as Hlt.
      rewrite length_insert in Hlt. lia. }
    rewrite epoch_of_nonneg in Hslot by (unfold is_int in Hty1; lia).
    destruct (decide (position (index_of (number b) bsize) = pos)) as [<-|Hne].
    + pose proof (lookup_lt_Some _ _ _ Hslot) as Hlt. rewrite length_insert in Hlt.
      rewrite list_lookup_insert_eq in Hslot by done. by injection Hslot as <-.
    + rewrite list_lookup_insert_ne in Hslot by done. by apply Hinv.
Qed.

Lemma run_wf bsize h s :
  is_unsigned bsize ->
  Forall op_typed h ->
  run h (start bsize) = Next s ->
  wf (obj s) /\ buffer_size (obj s) = bsize.
Proof.
  intros Hbs. revert s. induction h as [|o h IH] using rev_ind; intros s Hty.
  - intros [= <-]. split; [by apply BlocksBuffer_new_wf|done].
  - apply Forall_app in Hty as [Hty Hty1]. apply Forall_inv in Hty1. rewrite run_snoc.
    destruct (run h (start bsize)) as [s0| |] eqn:Hrun; [|done..].
    destruct (IH s0) as (Hwf & Hsize); [done..|]. intros Hexec.
    destruct (exec_effect o s0 s Hty1 Hwf Hexec) as (Hwf' & Hsize' & _).
    split; [done|congruence].
Qed.

End Invariant.

(** C9: in every state reached from a new buffer by calls of the three
    operations in which only blocks with a number that is not negative are
    added, each slot either is the constructor's entry, with epoch -1, and
    no block was ever added at its position, or holds the block added there
    last with the epoch [number / buffer_size], which is not -1.  Hence,
    when [current_blocknum] is not negative and the slot at its index
    carries its epoch, that slot is not the constructor's entry: it holds a
    block that an [AddBlock] of the history wrote, and the block's number is
    [current_blocknum]. *)
Theorem C9_slots_record_history (bsize : Z) (h : list op) (s : system) :
  is_unsigned bsize ->
  Forall op_typed h ->
  Forall op_adds_nonneg h ->
  run h (start bsize) = Next s ->
  (forall (pos : nat) (slot : Block * Z),
     buffer (obj s) !! pos = Some slot ->
     (slot = default_slot /\ slot.2 = -1 /\ last_added bsize pos h = None) \/
     (exists b,
        last_added bsize pos h = Some b /\ CallAddBlock b ∈ h /\
        slot = (b, number b / bsize) /\
        Z.of_nat pos = number b mod bsize /\ slot.2 <> -1)) /\
  (forall slot : Block * Z,
     0 <= current_blocknum (obj s) ->
     buffer (obj s) !! position (index_of (current_blocknum (obj s)) (buffer_size (obj s)))
       = Some slot ->
     slot.2 = epoch_of (current_blocknum (obj s)) (buffer_size (obj s)) ->
     slot <> default_slot /\
     CallAddBlock slot.1 ∈ h /\
     number slot.1 = current_blocknum (obj s)).
Proof.
  intros Hbs Hty Hnn Hrun.
  destruct (run_invariant bsize h s Hbs Hty Hnn Hrun) as ([_ Hlen Hcur] & Hsize & Hinv).
  rewrite Hsize in *. unfold is_unsigned, is_int, INT_MIN, INT_MAX, UINT_MAX in *.
  assert (forall (pos : nat) (slot : Block * Z),
     buffer (obj s) !! pos = Some slot ->
     (slot = default_slot /\ slot.2 = -1 /\ last_added bsize pos h = None) \/
     (exists b,
        last_added bsize pos h = Some b /\ CallAddBlock b ∈ h /\
        slot = (b, number b / bsize) /\
        Z.of_nat pos = number b mod bsize /\ slot.2 <> -1)) as Hslots.
  { intros pos slot Hslot. pose proof (lookup_lt_Some _ _ _ Hslot) as Hlt.
    specialize (Hinv pos slot Hslot).
    destruct (last_added bsize pos h) as [b|] eqn:Hlast; [right|left; by subst slot].
    destruct (last_added_Some _ _ _ _ Hlast) as [Hin Hpos].
    pose proof (proj1 (Forall_forall _ _) Hty _ Hin) as Hb1.
    pose proof (proj1 (Forall_forall _ _) Hnn _ Hin) as Hb2.
    cbn [op_typed op_adds_nonneg] in Hb1, Hb2.
    unfold is_int, INT_MIN, INT_MAX in Hb1.
    exists b. repeat split; try done.
    - rewrite index_of_nonneg in Hpos by (unfold INT_MAX; lia).
      pose proof (Z.mod_pos_bound (number b) bsize).
      rewrite position_small in Hpos by (unfold UINT_MAX; lia). lia.
    - subst slot. cbn [snd].
      assert (0 <= number b / bsize) by (apply Z.div_pos; lia). lia. }
  split; [exact Hslots|].
  intros slot Hnneg Hslot Hepoch.
  pose proof (lookup_lt_Some _ _ _ Hslot) as Hlt.
  rewrite epoch_of_nonneg in Hepoch by (unfold INT_MAX; lia).
  rewrite index_of_nonneg in Hslot by (unfold INT_MAX; lia).
  pose proof (Z.mod_pos_bound (current_blocknum (obj s)) bsize) as Hmod.
  rewrite position_small in Hslot by (unfold UINT_MAX; lia).
  assert (0 <= current_blocknum (obj s) / bsize) as Hq by (apply Z.div_pos; lia).
  destruct (Hslots _ _ Hslot) as [(_ & Hsent & _)|(b & _ & Hin & -> & Hpos & _)]; [lia|].
  cbn [fst snd] in *. split; [|split; [done|]].
  - unfold default_slot. intros [= _ Hbad]. lia.
  - rewrite Z2Nat.id in Hpos by lia.
    rewrite (Z.div_mod (number b) bsize), (Z.div_mod (current_blocknum (obj s)) bsize) by lia.
    by rewrite Hepoch, Hpos.
Qed.

Lemma C9_slots_record_history_witness :
  let h := [CallAddBlock (mkBlock 1); CallAddBlock (mkBlock 0); CallGetCurrentBlock;
            CallGetCurrentBlock; CallGetCurrentBlock; CallAddBlock (mkBlock 6);
            CallAddBlock (mkBlock 2); WaitReturns; CallSetCurrentBlocknum 6;
            CallAddBlock (mkBlock 6)] in
  exists s,
    run h (start 4) = Next s /\
    received s = [mkBlock 0; mkBlock 1; mkBlock 2] /\
    (forall (pos : nat) (slot : Block * Z),
       buffer (obj s) !! pos = Some slot ->
       (slot = default_slot /\ slot.2 = -1 /\ last_added 4 pos h = None) \/
       (exists b,
          last_added 4 pos h = Some b /\ CallAddBlock b ∈ h /\
          slot = (b, number b / 4) /\
          Z.of_nat pos = number b mod 4 /\ slot.2 <> -1)) /\
    (forall slot : Block * Z,
       0 <= current_blocknum (obj s) ->
       buffer (obj s) !! position (index_of (current_blocknum (obj s)) (buffer_size (obj s)))
         = Some slot ->
       slot.2 = epoch_of (current_blocknum (obj s)) (buffer_size (obj s)) ->
       slot <> default_slot /\
       CallAddBlock slot.1 ∈ h /\
       number slot.1 = current_blocknum (obj s)).
Proof.
  intros h. eexists. split; [vm_compute; reflexivity|]. split; [reflexivity|].
  apply (C9_slots_record_history 4 h).
  - unfold is_unsigned, UINT_MAX. lia.
  - unfold h. repeat (apply Forall_cons; split; [vm_compute; intuition discriminate|]).
    apply Forall_nil. exact I.
  - unfold h. repeat (apply Forall_cons; split; [vm_compute; intuition discriminate|]).
    apply Forall_nil. exact I.
  - vm_compute. reflexivity.
Defined.

(** ** Repositioning the cursor *)

(** C5: [SetCurrentBlocknum] completes on every buffer and leaves
    [current_blocknum] equal to its argument.  And with a capacity of at
    least 5, in any state reached from a new buffer in which the consumer
    has been handed the blocks 0 .. 4 and is not inside [GetCurrentBlock],
    the calls [SetCurrentBlocknum(2)], [AddBlock(Block(2))] and
    [GetCurrentBlock] end with the consumer handed what slot 2 holds at that
    moment, the block just added. *)
Theorem C5_reset_then_redeliver (bsize : Z) (h : list op) (s1 : system) :
  is_unsigned bsize ->
  5 <= bsize ->
  Forall op_typed h ->
  run h (start bsize) = Next s1 ->
  parked s1 = None ->
  received s1 = [mkBlock 0; mkBlock 1; mkBlock 2; mkBlock 3; mkBlock 4] ->
  (forall n bb, exists u bb' tr,
     SetCurrentBlocknum n bb = Ok (u, bb', tr) /\
     current_blocknum bb' = n /\ buffer bb' = buffer bb /\ buffer_size bb' = buffer_size bb) /\
  exists s2 s3,
    run [CallSetCurrentBlocknum 2; CallAddBlock (mkBlock 2)] s1 = Next s2 /\
    current_blocknum (obj s2) = 2 /\
    buffer (obj s2) !! 2%nat = Some (mkBlock 2, 0) /\
    exec CallGetCurrentBlock s2 = Next s3 /\
    received s3 = [mkBlock 0; mkBlock 1; mkBlock 2; mkBlock 3; mkBlock 4; mkBlock 2] /\
    parked s3 = None /\
    current_blocknum (obj s3) = 3 /\
    buffer (obj s3) = buffer (obj s2).
Proof.
  intros Hbs Hcap Hty Hrun Hp Hrec. split.
  { intros n bb. rewrite SetCurrentBlocknum_unfold. by do 3 eexists. }
  destruct (run_wf bsize h s1 Hbs Hty Hrun) as ([_ Hlen _] & Hsize).
  do 2 eexists.
  cbn [run]. unfold exec at 1. rewrite Hp, SetCurrentBlocknum_unfold.
  rewrite exec_add_low; cbn [obj number number_ set_blocknum buffer buffer_size];
    try done; try (unfold INT_MAX; lia).
  split; [reflexivity|]. cbn [obj current_blocknum buffer].
  assert (<[Z.to_nat 2 := (mkBlock 2, 0)]> (buffer (obj s1)) !! 2%nat = Some (mkBlock 2, 0))
    as Hslot by (apply list_lookup_insert_eq; lia).
  split; [reflexivity|]. split; [exact Hslot|].
  rewrite exec_get_low with (b := mkBlock 2);
    cbn [obj parked received current_blocknum buffer buffer_size set_blocknum];
    try done; try (unfold INT_MAX; lia).
  by rewrite Hrec.
Qed.

Lemma C5_reset_then_redeliver_witness :
  let h := (CallAddBlock <$> [mkBlock 3; mkBlock 1; mkBlock 4; mkBlock 0; mkBlock 2])
             ++ replicate 5 CallGetCurrentBlock in
  exists s1,
    run h (start 100) = Next s1 /\
    (forall n bb, exists u bb' tr,
       SetCurrentBlocknum n bb = Ok (u, bb', tr) /\
       current_blocknum bb' = n /\ buffer bb' = buffer bb /\
       buffer_size bb' = buffer_size bb) /\
    exists s2 s3,
      run [CallSetCurrentBlocknum 2; CallAddBlock (mkBlock 2)] s1 = Next s2 /\
      current_blocknum (obj s2) = 2 /\
      buffer (obj s2) !! 2%nat = Some (mkBlock 2, 0) /\
      exec CallGetCurrentBlock s2 = Next s3 /\
      received s3 = [mkBlock 0; mkBlock 1; mkBlock 2; mkBlock 3; mkBlock 4; mkBlock 2] /\
      parked s3 = None /\
      current_blocknum (obj s3) = 3 /\
      buffer (obj s3) = buffer (obj s2).
Proof.
  intros h. eexists. split; [vm_compute; reflexivity|].
  apply (C5_reset_then_redeliver 100 h).
  - unfold is_unsigned, UINT_MAX. lia.
  - lia.
  - unfold h. cbn [fmap list_fmap app replicate].
    repeat (apply Forall_cons; split; [vm_compute; intuition discriminate|]).
    apply Forall_nil. exact I.
  - vm_compute. reflexivity.
  - reflexivity.
  - reflexivity.
Defined.

(** * Further properties of the operations *)

(** ** Single calls on a system *)

Section Steps.

Lemma exec_add_defined b s :
  Z.of_nat (length (buffer (obj s))) = buffer_size (obj s) ->
  0 < buffer_size (obj s) <= 2147483648 ->
  exec (CallAddBlock b) s =
  Next {| obj := set_slot (obj s) (index_of (number b) (buffer_size (obj s)))
                   (b, epoch_of (number b) (buffer_size (obj s)));
          parked := parked s; received := received s |}.
Proof. intros Hlen Hcap. unfold exec. by rewrite AddBlock_defined. Qed.

Lemma exec_add_nonneg b s :
  0 <= number b <= INT_MAX ->
  0 < buffer_size (obj s) ->
  Z.of_nat (length (buffer (obj s))) = buffer_size (obj s) ->
  exec (CallAddBlock b) s =
  Next {| obj := {| buffer_size := buffer_size (obj s);
                    buffer := <[Z.to_nat (number b mod buffer_size (obj s))
                                  := (b, number b / buffer_size (obj s))]> (buffer (obj s));
                    current_blocknum := current_blocknum (obj s) |};
          parked := parked s; received := received s |}.
Proof.
  intros Hn Hpos Hlen. unfold exec. rewrite AddBlock_unfold.
  destruct (Z.eqb_spec (buffer_size (obj s)) 0) as [?|_]; [lia|].
  cbv zeta. rewrite index_of_nonneg, epoch_of_nonneg by lia.
  pose proof (Z.mod_pos_bound (number b) (buffer_size (obj s)) Hpos) as Hmod.
  assert (number b mod buffer_size (obj s) <= number b) by (apply Z.mod_le; lia).
  assert (position (number b mod buffer_size (obj s))
          = Z.to_nat (number b mod buffer_size (obj s))) as Hposn
    by (apply position_small; unfold INT_MAX, UINT_MAX in *; lia).
  rewrite Hposn.
  destruct (lookup_lt_is_Some_2 (buffer (obj s))
              (Z.to_nat (number b mod buffer_size (obj s)))) as [x ->]; [lia|].
  unfold set_slot. by rewrite Hposn.
Qed.

Lemma exec_get_deliver s slot :
  parked s = None ->
  buffer_size (obj s) <> 0 ->
  current_blocknum (obj s) <> INT_MAX ->
  buffer (obj s) !! position (index_of (current_blocknum (obj s)) (buffer_size (obj s)))
    = Some slot ->
  slot.2 = epoch_of (current_blocknum (obj s)) (buffer_size (obj s)) ->
  exec CallGetCurrentBlock s =
  Next {| obj := set_blocknum (obj s) (current_blocknum (obj s) + 1);
          parked := None; received := received s ++ [slot.1] |}.
Proof.
  intros Hp Hnz Hmax Hslot Hepoch. unfold exec. rewrite Hp, GetCurrentBlock_unfold.
  destruct (Z.eqb_spec (buffer_size (obj s)) 0) as [?|_]; [done|].
  cbv zeta. rewrite Hslot, Hepoch, Z.eqb_refl.
  by destruct (Z.eqb_spec (current_blocknum (obj s)) INT_MAX).
Qed.

Lemma exec_get_park s slot :
  parked s = None ->
  buffer_size (obj s) <> 0 ->
  buffer (obj s) !! position (index_of (current_blocknum (obj s)) (buffer_size (obj s)))
    = Some slot ->
  slot.2 <> epoch_of (current_blocknum (obj s)) (buffer_size (obj s)) ->
  exec CallGetCurrentBlock s =
  Next {| obj := obj s;
          parked := Some (index_of (current_blocknum (obj s)) (buffer_size (obj s)));
          received := received s |}.
Proof.
  intros Hp Hnz Hslot Hepoch. unfold exec. rewrite Hp, GetCurrentBlock_unfold.
  destruct (Z.eqb_spec (buffer_size (obj s)) 0) as [?|_]; [done|].
  cbv zeta. rewrite Hslot.
  by destruct (Z.eqb_spec slot.2 (epoch_of (current_blocknum (obj s)) (buffer_size (obj s)))).
Qed.

Lemma exec_wake s index slot :
  parked s = Some index ->
  current_blocknum (obj s) <> INT_MAX ->
  buffer (obj s) !! position index = Some slot ->
  exec WaitReturns s =
  Next {| obj := set_blocknum (obj s) (current_blocknum (obj s) + 1);
          parked := None; received := received s ++ [slot.1] |}.
Proof.
  intros Hp Hmax Hslot. unfold exec. rewrite Hp, GetCurrentBlock_wake_unfold.
  destruct (Z.eqb_spec (current_blocknum (obj s)) INT_MAX) as [?|_]; [done|].
  by rewrite Hslot.
Qed.

Lemma exec_set s n :
  parked s = None ->
  exec (CallSetCurrentBlocknum n) s =
  Next {| obj := set_blocknum (obj s) n; parked := None; received := received s |}.
Proof. intros Hp. unfold exec. by rewrite Hp. Qed.

End Steps.

(** ** The class invariant *)

(** X1: whatever calls are made on a new buffer, with arguments of their C++
    types, as long as none of them is undefined, the capacity stays the one
    given to the constructor, the vector keeps exactly that many slots (it
    is never resized) and [current_blocknum] stays an [int]. *)
Theorem X1_capacity_is_fixed (bsize : Z) (h : list op) (s : system) :
  is_unsigned bsize ->
  Forall op_typed h ->
  run h (start bsize) = Next s ->
  buffer_size (obj s) = bsize /\
  Z.of_nat (length (buffer (obj s))) = bsize /\
  is_int (current_blocknum (obj s)).
Proof.
  intros Hbs Hty Hrun.
  destruct (run_wf bsize h s Hbs Hty Hrun) as ([_ Hlen Hcur] & Hsize).
  split; [done|]. split; [congruence|done].
Qed.

Lemma X1_capacity_is_fixed_witness :
  let h := [CallAddBlock (mkBlock (-7)); CallSetCurrentBlocknum (-7); CallGetCurrentBlock;
            CallGetCurrentBlock; CallAddBlock (mkBlock 12); WaitReturns] in
  exists s,
    run h (start 5) = Next s /\
    buffer_size (obj s) = 5 /\
    Z.of_nat (length (buffer (obj s))) = 5 /\
    is_int (current_blocknum (obj s)).
Proof.
  intros h. eexists. split; [vm_compute; reflexivity|].
  apply (X1_capacity_is_fixed 5 h).
  - unfold is_unsigned, UINT_MAX. lia.
  - unfold h. repeat (apply Forall_cons; split; [vm_compute; intuition discriminate|]).
    apply Forall_nil. exact I.
  - vm_compute. reflexivity.
Defined.

(** ** Adding at the cursor, waiting, and waking *)

(** X2: on a buffer with a capacity from 1 to 2^31, for every [int] number
    below INT_MAX, negative or not: setting the cursor to the number,
    adding a block with that number and calling [GetCurrentBlock] returns
    that block at once and leaves the cursor one above the number. *)
Theorem X2_added_at_cursor_is_returned (s : system) (b : Block) :
  wf (obj s) ->
  0 < buffer_size (obj s) <= 2147483648 ->
  parked s = None ->
  INT_MIN <= number b < INT_MAX ->
  exists s',
    run [CallSetCurrentBlocknum (number b); CallAddBlock b; CallGetCurrentBlock] s = Next s' /\
    received s' = received s ++ [b] /\
    parked s' = None /\
    current_blocknum (obj s') = number b + 1.
Proof.
  intros [Hbs Hlen _] Hcap Hp Hn. cbn [run].
  rewrite exec_set by done.
  rewrite exec_add_defined by done.
  cbn [obj set_blocknum buffer buffer_size current_blocknum].
  destruct (position_in_range (number b) (obj s) Hlen Hcap) as [_ Hlt].
  rewrite exec_get_deliver with (slot := (b, epoch_of (number b) (buffer_size (obj s))));
    cbn [obj parked set_slot set_blocknum buffer buffer_size current_blocknum fst snd];
    try done; try lia.
  - by eexists.
  - by apply list_lookup_insert_eq.
Qed.

Lemma X2_added_at_cursor_is_returned_witness :
  exists s',
    run [CallSetCurrentBlocknum (number (mkBlock (-3))); CallAddBlock (mkBlock (-3));
         CallGetCurrentBlock] (start 7) = Next s' /\
    received s' = received (start 7) ++ [mkBlock (-3)] /\
    parked s' = None /\
    current_blocknum (obj s') = number (mkBlock (-3)) + 1.
Proof.
  apply (X2_added_at_cursor_is_returned (start 7) (mkBlock (-3))).
  - apply BlocksBuffer_new_wf. unfold is_unsigned, UINT_MAX. lia.
  - simpl. lia.
  - reflexivity.
  - unfold INT_MIN, INT_MAX. simpl. lia.
Defined.

(** X3: on a buffer with a capacity from 1 to 2^31, when the slot of the
    cursor does not carry the cursor's epoch, [GetCurrentBlock] parks the
    consumer and changes nothing; an [AddBlock] of the block with the
    cursor's number then writes the slot under [current_slot_mutex] and
    calls [notify_one]; and when the wait returns after that, the consumer
    is handed exactly that block and the cursor moves on by one. *)
Theorem X3_waits_then_returns_added_block (s : system) (b : Block) (slot : Block * Z) :
  wf (obj s) ->
  0 < buffer_size (obj s) <= 2147483648 ->
  parked s = None ->
  current_blocknum (obj s) < INT_MAX ->
  number b = current_blocknum (obj s) ->
  buffer (obj s) !! position (index_of (current_blocknum (obj s)) (buffer_size (obj s)))
    = Some slot ->
  slot.2 <> epoch_of (current_blocknum (obj s)) (buffer_size (obj s)) ->
  exists s1 s2 s3,
    exec CallGetCurrentBlock s = Next s1 /\
    obj s1 = obj s /\ received s1 = received s /\
    parked s1 = Some (index_of (current_blocknum (obj s)) (buffer_size (obj s))) /\
    exec (CallAddBlock b) s1 = Next s2 /\
    AddBlock b (obj s1) =
      Ok (tt, obj s2,
          [BlocknumRead; Acquire current_slot_mutex;
           SlotWrite (index_of (current_blocknum (obj s)) (buffer_size (obj s)));
           NotifyOne; Release current_slot_mutex]) /\
    exec WaitReturns s2 = Next s3 /\
    received s3 = received s ++ [b] /\
    parked s3 = None /\
    current_blocknum (obj s3) = current_blocknum (obj s) + 1.
Proof.
  intros [Hbs Hlen _] Hcap Hp Hmax Hnum Hslot Hne.
  assert (buffer_size (obj s) <> 0) as Hnz by lia.
  destruct (position_in_range (number b) (obj s) Hlen Hcap) as [_ Hlt].
  do 3 eexists.
  split; [by apply (exec_get_park s slot)|]. cbn [obj received parked].
  split; [done|]. split; [done|]. split; [done|].
  split; [by apply exec_add_defined|]. cbn [obj].
  split. { rewrite AddBlock_defined by done. by rewrite Hnum, Z.eqb_refl. }
  rewrite exec_wake with (index := index_of (current_blocknum (obj s)) (buffer_size (obj s)))
                         (slot := (b, epoch_of (number b) (buffer_size (obj s))));
    cbn [obj parked received set_slot set_blocknum buffer buffer_size current_blocknum
           fst snd];
    try done; try lia.
  rewrite Hnum in *. by apply list_lookup_insert_eq.
Qed.

Lemma X3_waits_then_returns_added_block_witness :
  let s := {| obj := {| buffer_size := 4;
                        buffer := [(mkBlock 0, 0); default_slot; default_slot; default_slot];
                        current_blocknum := 4 |};
              parked := None; received := [mkBlock 0] |} in
  exists s1 s2 s3,
    exec CallGetCurrentBlock s = Next s1 /\
    obj s1 = obj s /\ received s1 = received s /\
    parked s1 = Some (index_of (current_blocknum (obj s)) (buffer_size (obj s))) /\
    exec (CallAddBlock (mkBlock 4)) s1 = Next s2 /\
    AddBlock (mkBlock 4) (obj s1) =
      Ok (tt, obj s2,
          [BlocknumRead; Acquire current_slot_mutex;
           SlotWrite (index_of (current_blocknum (obj s)) (buffer_size (obj s)));
           NotifyOne; Release current_slot_mutex]) /\
    exec WaitReturns s2 = Next s3 /\
    received s3 = received s ++ [mkBlock 4] /\
    parked s3 = None /\
    current_blocknum (obj s3) = current_blocknum (obj s) + 1.
Proof.
  intros s. apply (X3_waits_then_returns_added_block s (mkBlock 4) (mkBlock 0, 0)).
  - split; vm_compute; try reflexivity; split; discriminate.
  - simpl. lia.
  - reflexivity.
  - unfold INT_MAX. simpl. lia.
  - reflexivity.
  - reflexivity.
  - vm_compute. discriminate.
Defined.

(** X4: the code does not test the slot again after the wait.  When the
    cursor is below INT_MAX, its slot does not carry its epoch and the wait
    returns with no [AddBlock] in between (a spurious wake-up), the consumer
    is handed the block of that slot, whatever it is, and the cursor still
    moves on by one. *)
Theorem X4_early_wake_returns_stale_slot (s : system) (slot : Block * Z) :
  buffer_size (obj s) <> 0 ->
  parked s = None ->
  current_blocknum (obj s) < INT_MAX ->
  buffer (obj s) !! position (index_of (current_blocknum (obj s)) (buffer_size (obj s)))
    = Some slot ->
  slot.2 <> epoch_of (current_blocknum (obj s)) (buffer_size (obj s)) ->
  exists s',
    run [CallGetCurrentBlock; WaitReturns] s = Next s' /\
    received s' = received s ++ [slot.1] /\
    parked s' = None /\
    buffer (obj s') = buffer (obj s) /\
    current_blocknum (obj s') = current_blocknum (obj s) + 1.
Proof.
  intros Hnz Hp Hmax Hslot Hne. cbn [run].
  rewrite (exec_get_park s slot) by done.
  rewrite exec_wake with (index := index_of (current_blocknum (obj s)) (buffer_size (obj s)))
                         (slot := slot); cbn [obj parked]; try done; try lia.
  by eexists.
Qed.

Lemma X4_early_wake_returns_stale_slot_witness :
  let s := {| obj := {| buffer_size := 4;
                        buffer := [(mkBlock 0, 0); (mkBlock 1, 0); default_slot; default_slot];
                        current_blocknum := 5 |};
              parked := None; received := [] |} in
  exists s',
    run [CallGetCurrentBlock; WaitReturns] s = Next s' /\
    received s' = received s ++ [(mkBlock 1, 0).1] /\
    parked s' = None /\
    buffer (obj s') = buffer (obj s) /\
    current_blocknum (obj s') = current_blocknum (obj s) + 1.
Proof.
  intros s. apply (X4_early_wake_returns_stale_slot s (mkBlock 1, 0)).
  - simpl. lia.
  - reflexivity.
  - unfold INT_MAX. simpl. lia.
  - reflexivity.
  - vm_compute. discriminate.
Defined.

(** ** Writes to the slots *)

Section Residues.

Lemma mod_add_capacity n bsize :
  0 < bsize -> (n + bsize) mod bsize = n mod bsize /\ (n + bsize) / bsize = n / bsize + 1.
Proof.
  intros Hb. split.
  - rewrite <- (Z.mul_1_l bsize) at 1. by rewrite Z.mod_add by lia.
  - rewrite <- (Z.mul_1_l bsize) at 1. by rewrite Z.div_add by lia.
Qed.

(** Two different numbers less than a capacity apart fall into different
    slots. *)
Lemma residues_differ i j bsize :
  0 < bsize -> i <> j -> - bsize < i - j < bsize -> i mod bsize <> j mod bsize.
Proof.
  intros Hb Hne Hclose Heq.
  pose proof (Z.div_mod i bsize ltac:(lia)) as Hi.
  pose proof (Z.div_mod j bsize ltac:(lia)) as Hj.
  rewrite Heq in Hi.
  assert (i - j = bsize * (i / bsize - j / bsize)) as Hdiff by lia.
  assert (i / bsize - j / bsize = 0) by nia. lia.
Qed.

End Residues.

(** X5: the capacity is not checked.  With the cursor at a number [n] that is
    not negative, adding block [n] and then block [n + buffer_size] before
    the consumer takes block [n] overwrites it without any error: the slot
    then holds block [n + buffer_size] with the next epoch, and
    [GetCurrentBlock] waits although block [n] was added; without the
    second [AddBlock] it returns block [n]. *)
Theorem X5_overwritten_before_taken (s : system) (n : Z) :
  wf (obj s) ->
  parked s = None ->
  current_blocknum (obj s) = n ->
  0 < buffer_size (obj s) ->
  0 <= n ->
  n + buffer_size (obj s) <= INT_MAX ->
  (exists s',
     run [CallAddBlock (mkBlock n); CallAddBlock (mkBlock (n + buffer_size (obj s)));
          CallGetCurrentBlock] s = Next s' /\
     buffer (obj s') !! Z.to_nat (n mod buffer_size (obj s))
       = Some (mkBlock (n + buffer_size (obj s)), n / buffer_size (obj s) + 1) /\
     parked s' = Some (n mod buffer_size (obj s)) /\
     received s' = received s /\
     current_blocknum (obj s') = n) /\
  (exists s',
     run [CallAddBlock (mkBlock n); CallGetCurrentBlock] s = Next s' /\
     received s' = received s ++ [mkBlock n] /\
     parked s' = None).
Proof.
  intros [Hbs Hlen _] Hp Hcur Hpos Hn Hmax.
  pose proof (Z.mod_pos_bound n (buffer_size (obj s)) Hpos) as Hmod.
  assert (n mod buffer_size (obj s) <= n) as Hle by (apply Z.mod_le; lia).
  destruct (mod_add_capacity n (buffer_size (obj s)) Hpos) as [Hm Hd].
  assert (position (n mod buffer_size (obj s)) = Z.to_nat (n mod buffer_size (obj s)))
    as Hposn by (apply position_small; unfold INT_MAX, UINT_MAX in *; lia).
  split.
  - cbn [run].
    rewrite exec_add_nonneg by (cbn [number number_]; lia).
    rewrite exec_add_nonneg
      by (cbn [obj buffer buffer_size number number_]; rewrite ?length_insert; lia).
    cbn [obj buffer buffer_size current_blocknum number number_].
    rewrite Hm, Hd, list_insert_insert_eq.
    rewrite exec_get_park
      with (slot := (mkBlock (n + buffer_size (obj s)), n / buffer_size (obj s) + 1));
      cbn [obj parked buffer buffer_size current_blocknum fst snd]; try done; try lia.
    + eexists. split; [done|]. cbn [obj parked received buffer current_blocknum].
      rewrite Hcur, index_of_nonneg by lia.
      split; [|done]. apply list_lookup_insert_eq. lia.
    + rewrite Hcur, index_of_nonneg, Hposn by lia. apply list_lookup_insert_eq. lia.
    + rewrite Hcur, epoch_of_nonneg by lia. lia.
  - cbn [run].
    rewrite exec_add_nonneg by (cbn [number number_]; lia).
    cbn [number number_].
    rewrite exec_get_deliver with (slot := (mkBlock n, n / buffer_size (obj s)));
      cbn [obj parked buffer buffer_size current_blocknum fst snd]; try done; try lia.
    + by eexists.
    + rewrite Hcur, index_of_nonneg, Hposn by lia. apply list_lookup_insert_eq. lia.
    + rewrite Hcur, epoch_of_nonneg by lia. done.
Qed.

Lemma X5_overwritten_before_taken_witness :
  (exists s',
     run [CallAddBlock (mkBlock 0); CallAddBlock (mkBlock (0 + buffer_size (obj (start 100))));
          CallGetCurrentBlock] (start 100) = Next s' /\
     buffer (obj s') !! Z.to_nat (0 mod buffer_size (obj (start 100)))
       = Some (mkBlock (0 + buffer_size (obj (start 100))),
               0 / buffer_size (obj (start 100)) + 1) /\
     parked s' = Some (0 mod buffer_size (obj (start 100))) /\
     received s' = received (start 100) /\
     current_blocknum (obj s') = 0) /\
  (exists s',
     run [CallAddBlock (mkBlock 0); CallGetCurrentBlock] (start 100) = Next s' /\
     received s' = received (start 100) ++ [mkBlock 0] /\
     parked s' = None).
Proof.
  apply (X5_overwritten_before_taken (start 100) 0).
  - apply BlocksBuffer_new_wf. unfold is_unsigned, UINT_MAX. lia.
  - reflexivity.
  - reflexivity.
  - simpl. lia.
  - lia.
  - unfold INT_MAX. simpl. lia.
Defined.

(** X6: how two [AddBlock] calls compose, on a buffer with a capacity from 1
    to 2^31 and for any two [int] numbers.  When the two blocks fall into
    the same slot the second write wins, and the state is the one the
    second call alone gives; when they fall into different slots the order
    of the two calls does not matter. *)
Theorem X6_last_write_wins (s : system) (b1 b2 : Block) :
  wf (obj s) ->
  0 < buffer_size (obj s) <= 2147483648 ->
  (position (index_of (number b1) (buffer_size (obj s)))
     = position (index_of (number b2) (buffer_size (obj s))) ->
   run [CallAddBlock b1; CallAddBlock b2] s = run [CallAddBlock b2] s) /\
  (position (index_of (number b1) (buffer_size (obj s)))
     <> position (index_of (number b2) (buffer_size (obj s))) ->
   run [CallAddBlock b1; CallAddBlock b2] s = run [CallAddBlock b2; CallAddBlock b1] s) /\
  exists s',
    run [CallAddBlock b1; CallAddBlock b2] s = Next s' /\
    buffer (obj s') !! position (index_of (number b2) (buffer_size (obj s)))
      = Some (b2, epoch_of (number b2) (buffer_size (obj s))).
Proof.
  intros [Hbs Hlen _] Hcap.
  destruct (position_in_range (number b2) (obj s) Hlen Hcap) as [_ Hlt2].
  assert (run [CallAddBlock b1; CallAddBlock b2] s =
          Next {| obj := set_slot
                           (set_slot (obj s) (index_of (number b1) (buffer_size (obj s)))
                              (b1, epoch_of (number b1) (buffer_size (obj s))))
                           (index_of (number b2) (buffer_size (obj s)))
                           (b2, epoch_of (number b2) (buffer_size (obj s)));
                  parked := parked s; received := received s |}) as H12.
  { cbn [run]. rewrite exec_add_defined by done.
    rewrite exec_add_defined
      by (cbn [obj set_slot buffer buffer_size]; rewrite ?length_insert; done).
    done. }
  assert (run [CallAddBlock b2; CallAddBlock b1] s =
          Next {| obj := set_slot
                           (set_slot (obj s) (index_of (number b2) (buffer_size (obj s)))
                              (b2, epoch_of (number b2) (buffer_size (obj s))))
                           (index_of (number b1) (buffer_size (obj s)))
                           (b1, epoch_of (number b1) (buffer_size (obj s)));
                  parked := parked s; received := received s |}) as H21.
  { cbn [run]. rewrite exec_add_defined by done.
    rewrite exec_add_defined
      by (cbn [obj set_slot buffer buffer_size]; rewrite ?length_insert; done).
    done. }
  split; [|split].
  - intros Heq. rewrite H12. cbn [run]. rewrite exec_add_defined by done.
    unfold set_slot. cbn [buffer buffer_size current_blocknum].
    by rewrite Heq, list_insert_insert_eq.
  - intros Hne. rewrite H12, H21. unfold set_slot. cbn [buffer buffer_size current_blocknum].
    by rewrite list_insert_insert_ne by done.
  - eexists. split; [exact H12|]. cbn [obj set_slot buffer].
    apply list_lookup_insert_eq. by rewrite length_insert.
Qed.

Lemma X6_last_write_wins_witness :
  let s := start 4 in
  (position (index_of (number (mkBlock 1)) (buffer_size (obj s)))
     = position (index_of (number (mkBlock 6)) (buffer_size (obj s))) ->
   run [CallAddBlock (mkBlock 1); CallAddBlock (mkBlock 6)] s
     = run [CallAddBlock (mkBlock 6)] s) /\
  (position (index_of (number (mkBlock 1)) (buffer_size (obj s)))
     <> position (index_of (number (mkBlock 6)) (buffer_size (obj s))) ->
   run [CallAddBlock (mkBlock 1); CallAddBlock (mkBlock 6)] s
     = run [CallAddBlock (mkBlock 6); CallAddBlock (mkBlock 1)] s) /\
  exists s',
    run [CallAddBlock (mkBlock 1); CallAddBlock (mkBlock 6)] s = Next s' /\
    buffer (obj s') !! position (index_of (number (mkBlock 6)) (buffer_size (obj s)))
      = Some (mkBlock 6, epoch_of (number (mkBlock 6)) (buffer_size (obj s))).
Proof.
  intros s. apply (X6_last_write_wins s (mkBlock 1) (mkBlock 6)).
  - apply BlocksBuffer_new_wf. unfold is_unsigned, UINT_MAX. lia.
  - simpl. lia.
Defined.

(** ** Delivery in order from any cursor *)

Section Window.

(** Adding blocks whose numbers lie in a window no wider than the capacity:
    every slot of the window ends with the block of its number, and the
    slots that no block of the list falls into are left alone. *)
Lemma run_adds_window (l : list Block) s c k :
  Z.of_nat (length (buffer (obj s))) = buffer_size (obj s) ->
  0 < buffer_size (obj s) ->
  0 <= c -> c + k <= INT_MAX + 1 -> k <= buffer_size (obj s) ->
  (forall b, b ∈ l -> c <= number b < c + k) ->
  exists s',
    run (CallAddBlock <$> l) s = Next s' /\
    parked s' = parked s /\ received s' = received s /\
    current_blocknum (obj s') = current_blocknum (obj s) /\
    buffer_size (obj s') = buffer_size (obj s) /\
    length (buffer (obj s')) = length (buffer (obj s)) /\
    (forall i, c <= i < c + k -> mkBlock i ∈ l ->
       buffer (obj s') !! Z.to_nat (i mod buffer_size (obj s))
         = Some (mkBlock i, i / buffer_size (obj s))) /\
    (forall pos : nat,
       (forall b, b ∈ l -> Z.to_nat (number b mod buffer_size (obj s)) <> pos) ->
       buffer (obj s') !! pos = buffer (obj s) !! pos).
Proof.
  revert s. induction l as [|b l IH]; intros s Hlen Hpos Hc Hmax Hk Hl.
  { exists s. cbn. repeat split; try done. intros i _ H. by apply elem_of_nil in H. }
  destruct (Hl b) as [Hb1 Hb2]; [by left|].
  rewrite fmap_cons. cbn [run].
  rewrite exec_add_nonneg by (unfold INT_MAX in *; lia).
  match goal with |- context [run _ ?t] => set (s1 := t) end.
  destruct (IH s1) as (s' & Hrun & Hp & Hr & Hcur & Hs & Hlen' & Hslots & Hframe);
    try (subst s1; cbn [obj buffer buffer_size]; rewrite ?length_insert; done).
  { intros b' Hb'. apply Hl. by right. }
  exists s'. subst s1. cbn [obj buffer buffer_size current_blocknum parked received] in *.
  rewrite length_insert in Hlen'.
  pose proof (Z.mod_pos_bound (number b) (buffer_size (obj s)) Hpos) as Hmodb.
  repeat split; try done.
  - intros i Hi Hin. destruct (decide (mkBlock i ∈ l)) as [Hin'|Hnin]; [by apply Hslots|].
    apply elem_of_cons in Hin as [Heq|?]; [|done].
    assert (number b = i) as Hnb by (by rewrite <- Heq).
    rewrite Hframe.
    + rewrite <- Hnb, Block_eta. apply list_lookup_insert_eq. lia.
    + intros b' Hb' Hsame. destruct (Hl b') as [Hb'1 Hb'2]; [by right|].
      pose proof (Z.mod_pos_bound (number b') (buffer_size (obj s)) Hpos).
      pose proof (Z.mod_pos_bound i (buffer_size (obj s)) Hpos).
      apply (residues_differ (number b') i (buffer_size (obj s))); [done| |lia|lia].
      intros Hsame'. apply Hnin. by rewrite <- Hsame', Block_eta.
  - intros pos Hfree. rewrite Hframe by (intros b' Hb'; apply Hfree; by right).
    apply list_lookup_insert_ne. apply Hfree. by left.
Qed.

(** Taking [k] blocks when the slots of the cursor and of the [k - 1]
    numbers after it hold the blocks of these numbers. *)
Lemma run_gets_window (k : nat) s :
  parked s = None ->
  0 < buffer_size (obj s) ->
  0 <= current_blocknum (obj s) ->
  current_blocknum (obj s) + Z.of_nat k <= INT_MAX ->
  (forall i, current_blocknum (obj s) <= i < current_blocknum (obj s) + Z.of_nat k ->
             buffer (obj s) !! Z.to_nat (i mod buffer_size (obj s))
               = Some (mkBlock i, i / buffer_size (obj s))) ->
  run (replicate k CallGetCurrentBlock) s =
  Next {| obj := set_blocknum (obj s) (current_blocknum (obj s) + Z.of_nat k);
          parked := None;
          received := received s ++ blocks (current_blocknum (obj s)) (Z.of_nat k) |}.
Proof.
  induction k as [|k IH]; intros Hp Hpos Hc Hmax Hslots.
  { cbn [replicate run]. destruct s as [[bs buf cur] p r]. cbn in *. subst p.
    unfold set_blocknum, blocks. cbn. by rewrite Z.add_0_r, app_nil_r. }
  rewrite replicate_S_end, run_snoc, IH by (try done; intros; try apply Hslots; lia).
  set (i := current_blocknum (obj s) + Z.of_nat k).
  pose proof (Z.mod_pos_bound i (buffer_size (obj s)) Hpos) as Hmod.
  assert (i mod buffer_size (obj s) <= i) by (apply Z.mod_le; lia).
  rewrite exec_get_deliver with (slot := (mkBlock i, i / buffer_size (obj s)));
    cbn [obj parked received set_blocknum buffer buffer_size current_blocknum fst snd];
    fold i; try done; try lia.
  - rewrite blocks_snoc, app_assoc. do 3 f_equal. unfold i. lia.
  - rewrite index_of_nonneg by lia.
    rewrite position_small by (unfold INT_MAX, UINT_MAX in *; lia).
    apply Hslots. lia.
  - rewrite epoch_of_nonneg by lia. done.
Qed.

Lemma window_cover (l : list Block) c k :
  number <$> l ≡ₚ seqZ c k ->
  (forall b, b ∈ l -> c <= number b < c + k) /\
  (forall i, c <= i < c + k -> mkBlock i ∈ l).
Proof.
  intros Hperm. split.
  - intros b Hb. assert (number b ∈ seqZ c k) as Hin.
    { rewrite <- Hperm. by apply list_elem_of_fmap_2. }
    apply elem_of_seqZ in Hin. lia.
  - intros i Hi. assert (i ∈ number <$> l) as Hin.
    { rewrite Hperm. apply elem_of_seqZ. lia. }
    apply list_elem_of_fmap in Hin as (b & -> & Hb). by rewrite Block_eta.
Qed.

(** The cursor is set to [c], the [k] blocks from [c] on are added in any
    order, and [k] blocks are taken. *)
Lemma run_window (s : system) (l : list Block) (c : Z) (k : nat) :
  wf (obj s) ->
  parked s = None ->
  0 < buffer_size (obj s) ->
  0 <= c ->
  c + Z.of_nat k <= INT_MAX ->
  Z.of_nat k <= buffer_size (obj s) ->
  number <$> l ≡ₚ seqZ c (Z.of_nat k) ->
  exists s',
    run ([CallSetCurrentBlocknum c] ++ (CallAddBlock <$> l)
           ++ replicate k CallGetCurrentBlock) s = Next s' /\
    received s' = received s ++ blocks c (Z.of_nat k) /\
    parked s' = None /\
    current_blocknum (obj s') = c + Z.of_nat k /\
    buffer_size (obj s') = buffer_size (obj s) /\
    (forall i, c <= i < c + Z.of_nat k ->
       buffer (obj s') !! Z.to_nat (i mod buffer_size (obj s))
         = Some (mkBlock i, i / buffer_size (obj s))).
Proof.
  intros [Hbs Hlen _] Hp Hpos Hc Hmax Hk Hperm.
  destruct (window_cover l c (Z.of_nat k) Hperm) as [Hin Hall].
  cbn [app run]. rewrite exec_set by done.
  match goal with |- context [run _ ?t] => set (s0 := t) end.
  destruct (run_adds_window l s0 c (Z.of_nat k))
    as (s1 & Hrun & Hp1 & Hr1 & Hc1 & Hs1 & _ & Hslots & _);
    try (subst s0; cbn [obj set_blocknum buffer buffer_size]; done); try lia.
  subst s0. cbn [obj set_blocknum buffer buffer_size current_blocknum parked received] in *.
  rewrite run_app, Hrun, run_gets_window; rewrite ?Hc1, ?Hs1; try done; try lia.
  - eexists. split; [done|]. cbn [obj received parked set_blocknum current_blocknum
                                  buffer buffer_size].
    rewrite Hr1. repeat split; try done. intros i Hi. by apply Hslots; [|apply Hall].
  - intros i Hi. by apply Hslots; [|apply Hall].
Qed.

End Window.

(** X7: delivery in order from any cursor.  On any buffer in its class
    invariant whose consumer is not inside [GetCurrentBlock], for every
    [c >= 0] and every [k] not above the capacity with [c + k <= INT_MAX]:
    after [SetCurrentBlocknum(c)] and [AddBlock] calls carrying the numbers
    [c .. c+k-1], each once and in any order, [k] calls of
    [GetCurrentBlock] all return, with the blocks [c, c+1, ..., c+k-1] in
    that order, whatever the slots held before. *)
Theorem X7_window_delivered_in_order (s : system) (l : list Block) (c : Z) (k : nat) :
  wf (obj s) ->
  parked s = None ->
  0 < buffer_size (obj s) ->
  0 <= c ->
  c + Z.of_nat k <= INT_MAX ->
  Z.of_nat k <= buffer_size (obj s) ->
  number <$> l ≡ₚ seqZ c (Z.of_nat k) ->
  exists s',
    run ([CallSetCurrentBlocknum c] ++ (CallAddBlock <$> l)
           ++ replicate k CallGetCurrentBlock) s = Next s' /\
    received s' = received s ++ blocks c (Z.of_nat k) /\
    parked s' = None /\
    current_blocknum (obj s') = c + Z.of_nat k.
Proof.
  intros Hwf Hp Hpos Hc Hmax Hk Hperm.
  destruct (run_window s l c k) as (s' & Hrun & Hrec & Hp' & Hcur & _); try done.
  by exists s'.
Qed.

Lemma X7_window_delivered_in_order_witness :
  let s := {| obj := {| buffer_size := 4;
                        buffer := [(mkBlock 4, 1); (mkBlock 1, 0); (mkBlock 2, 0);
                                   (mkBlock 3, 0)];
                        current_blocknum := 5 |};
              parked := None; received := [mkBlock 4] |} in
  exists s',
    run ([CallSetCurrentBlocknum 10]
           ++ (CallAddBlock <$> [mkBlock 12; mkBlock 10; mkBlock 13; mkBlock 11])
           ++ replicate 4 CallGetCurrentBlock) s = Next s' /\
    received s' = received s ++ blocks 10 (Z.of_nat 4) /\
    parked s' = None /\
    current_blocknum (obj s') = 10 + Z.of_nat 4.
Proof.
  intros s.
  apply (X7_window_delivered_in_order s [mkBlock 12; mkBlock 10; mkBlock 13; mkBlock 11] 10 4).
  - split; vm_compute; try reflexivity; split; discriminate.
  - reflexivity.
  - simpl. lia.
  - lia.
  - unfold INT_MAX. lia.
  - simpl. lia.
  - apply (bool_decide_unpack _). vm_compute. exact I.
Defined.

(** X8: setting the cursor back replays.  After the [k] blocks from [c] on
    were added and taken as in X7, [SetCurrentBlocknum(j)] with [j] among
    the numbers taken makes the following calls of [GetCurrentBlock] return
    the blocks [j .. c+k-1] a second time, with no [AddBlock] in between:
    a slot keeps its block after the block was handed over. *)
Theorem X8_reset_replays_taken_blocks
    (s : system) (l : list Block) (c : Z) (k : nat) (j : Z) :
  wf (obj s) ->
  parked s = None ->
  0 < buffer_size (obj s) ->
  0 <= c ->
  c + Z.of_nat k <= INT_MAX ->
  Z.of_nat k <= buffer_size (obj s) ->
  number <$> l ≡ₚ seqZ c (Z.of_nat k) ->
  c <= j <= c + Z.of_nat k ->
  exists s',
    run (([CallSetCurrentBlocknum c] ++ (CallAddBlock <$> l)
            ++ replicate k CallGetCurrentBlock)
           ++ [CallSetCurrentBlocknum j]
           ++ replicate (Z.to_nat (c + Z.of_nat k - j)) CallGetCurrentBlock) s = Next s' /\
    received s' = received s ++ blocks c (Z.of_nat k) ++ blocks j (c + Z.of_nat k - j) /\
    parked s' = None /\
    current_blocknum (obj s') = c + Z.of_nat k.
Proof.
  intros Hwf Hp Hpos Hc Hmax Hk Hperm Hj.
  destruct (run_window s l c k) as (s1 & Hrun & Hrec & Hp1 & Hcur & Hsize & Hslots);
    try done.
  rewrite run_app, Hrun. cbn [app run]. rewrite exec_set by done.
  rewrite run_gets_window;
    cbn [obj parked received set_blocknum buffer buffer_size current_blocknum];
    rewrite ?Hsize; try done; try lia.
  - eexists. split; [done|].
    cbn [obj parked received set_blocknum buffer buffer_size current_blocknum].
    rewrite Hrec, Z2Nat.id, <- app_assoc by lia. repeat split. lia.
  - intros i Hi. apply Hslots. lia.
Qed.

Lemma X8_reset_replays_taken_blocks_witness :
  exists s',
    run (([CallSetCurrentBlocknum 6]
            ++ (CallAddBlock <$> [mkBlock 8; mkBlock 6; mkBlock 7])
            ++ replicate 3 CallGetCurrentBlock)
           ++ [CallSetCurrentBlocknum 7]
           ++ replicate (Z.to_nat (6 + Z.of_nat 3 - 7)) CallGetCurrentBlock) (start 4)
      = Next s' /\
    received s'
      = received (start 4) ++ blocks 6 (Z.of_nat 3) ++ blocks 7 (6 + Z.of_nat 3 - 7) /\
    parked s' = None /\
    current_blocknum (obj s') = 6 + Z.of_nat 3.
Proof.
  apply (X8_reset_replays_taken_blocks (start 4) [mkBlock 8; mkBlock 6; mkBlock 7] 6 3 7).
  - apply BlocksBuffer_new_wf. unfold is_unsigned, UINT_MAX. lia.
  - reflexivity.
  - simpl. lia.
  - lia.
  - unfold INT_MAX. lia.
  - simpl. lia.
  - apply (bool_decide_unpack _). vm_compute. exact I.
  - lia.
Defined.

(** ** The epoch of a slot never written *)

Section Sentinel.

Lemma to_int_minus_one z : is_unsigned z -> to_int z = -1 -> z = 4294967295.
Proof.
  unfold is_unsigned, UINT_MAX, to_int. intros Hz H. Z.div_mod_to_equations. lia.
Qed.

(** The epoch computed for a cursor is the -1 of the constructor only for
    the cursor -1 on a buffer of capacity 1. *)
Lemma epoch_of_sentinel cur bsize :
  is_int cur -> 0 < bsize <= UINT_MAX ->
  epoch_of cur bsize = -1 <-> bsize = 1 /\ cur = -1.
Proof.
  intros Hcur Hbs. split.
  - intros H. unfold epoch_of in H.
    pose proof (to_unsigned_range cur) as Hu.
    assert (is_unsigned (to_unsigned cur / bsize)) as Hq.
    { unfold is_unsigned, UINT_MAX in *. split; [apply Z.div_pos; lia|].
      apply Z.div_le_upper_bound; nia. }
    apply to_int_minus_one in H; [|done].
    unfold is_unsigned, UINT_MAX in *.
    assert (bsize = 1) as ->.
    { destruct (Z.eq_dec bsize 1) as [|Hne]; [done|]. exfalso.
      assert (to_unsigned cur / bsize <= 4294967295 / 2).
      { transitivity (to_unsigned cur / 2).
        - apply Z.div_le_compat_l; lia.
        - apply Z.div_le_mono; lia. }
      change (4294967295 / 2) with 2147483647 in *. lia. }
    split; [done|]. rewrite Z.div_1_r in H.
    unfold to_unsigned, is_int, INT_MIN, INT_MAX in *. Z.div_mod_to_equations. lia.
  - intros [-> ->]. reflexivity.
Qed.

End Sentinel.

(** X9: on a new buffer with a capacity from 1 to 2^31, wherever the cursor
    is set, [GetCurrentBlock] waits and hands over nothing, since no slot
    was written, with one exception: with capacity 1 and the cursor at -1
    the epoch computed for the cursor is the -1 the constructor put into
    the slot, and the call returns the constructor's [Block(0)]. *)
Theorem X9_new_buffer_waits (bsize cur : Z) :
  0 < bsize <= 2147483648 ->
  is_int cur ->
  exists s,
    run [CallSetCurrentBlocknum cur; CallGetCurrentBlock] (start bsize) = Next s /\
    buffer (obj s) = buffer (obj (start bsize)) /\
    (bsize = 1 /\ cur = -1 ->
     received s = [mkBlock 0] /\ parked s = None /\ current_blocknum (obj s) = 0) /\
    (~ (bsize = 1 /\ cur = -1) ->
     received s = [] /\ parked s = Some (index_of cur bsize) /\
     current_blocknum (obj s) = cur).
Proof.
  intros Hcap Hcur. cbn [run]. rewrite exec_set by done.
  match goal with |- context [exec _ ?t] => set (s0 := t) end.
  assert (Z.of_nat (length (buffer (obj s0))) = buffer_size (obj s0)) as Hlen.
  { subst s0. cbn [obj set_blocknum buffer buffer_size start BlocksBuffer_new].
    rewrite length_replicate. lia. }
  destruct (position_in_range cur (obj s0) Hlen Hcap) as [_ Hlt].
  assert (buffer (obj s0) !! position (index_of (current_blocknum (obj s0))
                                         (buffer_size (obj s0))) = Some default_slot) as Hslot.
  { subst s0. cbn [obj set_blocknum buffer buffer_size current_blocknum start
                   BlocksBuffer_new] in *.
    apply lookup_replicate_2. by rewrite length_replicate in Hlt. }
  pose proof (epoch_of_sentinel cur bsize Hcur ltac:(unfold UINT_MAX; lia)) as Hsent.
  destruct (decide (bsize = 1 /\ cur = -1)) as [Hyes|Hno].
  - rewrite (exec_get_deliver s0 default_slot); try done.
    + eexists. split; [done|]. split; [done|]. split; [|done].
      intros _. destruct Hyes as [_ ->]. done.
    + subst s0. cbn [obj set_blocknum buffer_size start BlocksBuffer_new]. lia.
    + subst s0. cbn [obj set_blocknum current_blocknum start BlocksBuffer_new]. destruct Hyes as [_ ->]. done.
    + subst s0. cbn [obj set_blocknum current_blocknum buffer_size start BlocksBuffer_new].
      symmetry. by apply Hsent.
  - rewrite (exec_get_park s0 default_slot); try done.
    + eexists. split; [done|]. split; [done|]. split; [done|]. intros _. done.
    + subst s0. cbn [obj set_blocknum buffer_size start BlocksBuffer_new]. lia.
    + subst s0. cbn [obj set_blocknum current_blocknum buffer_size start BlocksBuffer_new].
      intros Heq. apply Hno. apply Hsent. by rewrite <- Heq.
Qed.

Lemma X9_new_buffer_waits_witness :
  exists s,
    run [CallSetCurrentBlocknum (-1); CallGetCurrentBlock] (start 1) = Next s /\
    buffer (obj s) = buffer (obj (start 1)) /\
    (1 = 1 /\ -1 = -1 ->
     received s = [mkBlock 0] /\ parked s = None /\ current_blocknum (obj s) = 0) /\
    (~ (1 = 1 /\ -1 = -1) ->
     received s = [] /\ parked s = Some (index_of (-1) 1) /\
     current_blocknum (obj s) = -1).
Proof.
  apply (X9_new_buffer_waits 1 (-1)).
  - lia.
  - unfold is_int, INT_MIN, INT_MAX. lia.
Defined.

(** ** The mutexes each operation takes *)

(** X10: every call that completes releases what it acquired, never
    acquires a mutex it holds, and takes [current_blocknum_mutex] before
    [current_slot_mutex] when it takes both.  [AddBlock] never touches
    [current_blocknum_mutex]; [SetCurrentBlocknum] always needs it; and a
    [GetCurrentBlock] that parks the consumer leaves exactly
    [current_blocknum_mutex] held, until the code after the wait releases
    it: so [SetCurrentBlocknum] cannot run while the consumer waits, and
    [AddBlock] can. *)
Theorem X10_lock_discipline (bb : BlocksBuffer) :
  (forall b u bb' tr,
     AddBlock b bb = Ok (u, bb', tr) ->
     locks_after [] tr = Some [] /\
     (Acquire current_blocknum_mutex ∉ tr) /\
     locks_after [current_blocknum_mutex] tr = Some [current_blocknum_mutex]) /\
  (forall b bb' tr,
     GetCurrentBlock bb = Ok (Delivered b, bb', tr) -> locks_after [] tr = Some []) /\
  (forall index bb' tr,
     GetCurrentBlock bb = Ok (Parked index, bb', tr) ->
     locks_after [] tr = Some [current_blocknum_mutex]) /\
  (forall index b bb' tr,
     GetCurrentBlock_wake index bb = Ok (b, bb', tr) ->
     locks_after [current_blocknum_mutex] tr = Some []) /\
  (forall n u bb' tr,
     SetCurrentBlocknum n bb = Ok (u, bb', tr) ->
     locks_after [] tr = Some [] /\
     locks_after [current_blocknum_mutex] tr = None).
Proof.
  split; [|split; [|split; [|split]]].
  - intros b u bb' tr. rewrite AddBlock_unfold.
    destruct (buffer_size bb =? 0); [done|]. cbv zeta.
    destruct (buffer bb !! _); [|done]. intros [= _ _ <-].
    destruct (number b =? current_blocknum bb); cbn [AddBlock_events].
    + split; [reflexivity|]. split; [|reflexivity]. intros Hin.
      repeat (apply elem_of_cons in Hin as [Hin|Hin]; [discriminate Hin|]).
      by apply elem_of_nil in Hin.
    + split; [reflexivity|]. split; [|reflexivity]. intros Hin.
      repeat (apply elem_of_cons in Hin as [Hin|Hin]; [discriminate Hin|]).
      by apply elem_of_nil in Hin.
  - intros b bb' tr. rewrite GetCurrentBlock_unfold.
    destruct (buffer_size bb =? 0); [done|]. cbv zeta.
    destruct (buffer bb !! _) as [s|]; [|done].
    destruct (s.2 =? _); [destruct (_ =? INT_MAX); [done|]|]; by intros [= _ _ <-].
  - intros index bb' tr. rewrite GetCurrentBlock_unfold.
    destruct (buffer_size bb =? 0); [done|]. cbv zeta.
    destruct (buffer bb !! _) as [s|]; [|done].
    destruct (s.2 =? _); [destruct (_ =? INT_MAX); [done|]|]; by intros [= _ _ <-].
  - intros index b bb' tr. rewrite GetCurrentBlock_wake_unfold.
    destruct (_ =? INT_MAX); [done|].
    destruct (buffer bb !! _) as [s|]; [|done]. by intros [= _ _ <-].
  - intros n u bb' tr. rewrite SetCurrentBlocknum_unfold. by intros [= _ _ <-].
Qed.

Lemma X10_lock_discipline_witness :
  let bb := BlocksBuffer_new 4 in
  (locks_after [] [BlocknumRead; SlotWrite 2] = Some [] /\
   (Acquire current_blocknum_mutex ∉ [BlocknumRead; SlotWrite 2]) /\
   locks_after [current_blocknum_mutex] [BlocknumRead; SlotWrite 2]
     = Some [current_blocknum_mutex]) /\
  locks_after [] (park_events 0 0) = Some [current_blocknum_mutex] /\
  locks_after [current_blocknum_mutex] (wake_events 0) = Some [].
Proof.
  intros bb. destruct (X10_lock_discipline bb) as (Hadd & _ & Hpark & Hwake & _).
  split; [|split].
  - apply (Hadd (mkBlock 2) tt (set_slot bb 2 (mkBlock 2, 0))). reflexivity.
  - apply (Hpark 0 bb). reflexivity.
  - apply (Hwake 0 (mkBlock 0) (set_blocknum bb 1)). reflexivity.
Defined.

(** ** Calls that do not overlap, with wake-ups that follow a notification *)

Section Paced.

Lemma exec_paced_exec o p p' :
  exec_paced o p = PNext p' -> exec o (sys p) = Next (sys p').
Proof.
  unfold exec_paced, lift_outcome.
  destruct o as [b| | |n].
  - destruct (notified p && hits_awaited_slot b (sys p) && negb (notifies b (sys p)));
      [done|].
    destruct (exec (CallAddBlock b) (sys p)); [|done..]. by intros [= <-].
  - destruct (exec CallGetCurrentBlock (sys p)); [|done..]. by intros [= <-].
  - destruct (notified p); [|done].
    destruct (exec WaitReturns (sys p)); [|done..]. by intros [= <-].
  - destruct (exec (CallSetCurrentBlocknum n) (sys p)); [|done..]. by intros [= <-].
Qed.

Lemma run_paced_snoc h o p :
  run_paced (h ++ [o]) p =
  match run_paced h p with PNext p' => exec_paced o p' | stop => stop end.
Proof.
  revert p. induction h as [|o' h IH]; intros p; cbn [app run_paced].
  - by destruct (exec_paced o p).
  - destruct (exec_paced o' p); auto.
Qed.

Lemma run_paced_run h p0 p :
  run_paced h p0 = PNext p -> run h (sys p0) = Next (sys p).
Proof.
  revert p. induction h as [|o h IH] using rev_ind; intros p.
  - by intros [= <-].
  - rewrite run_paced_snoc, run_snoc.
    destruct (run_paced h p0) as [p1| |]; [|done..].
    rewrite (IH p1 eq_refl). apply exec_paced_exec.
Qed.

(** What one call does to the cursor and to what the consumer received. *)
Lemma exec_cases o s s' :
  exec o s = Next s' ->
  (received s' = received s /\
   (current_blocknum (obj s') = current_blocknum (obj s) \/
    o = CallSetCurrentBlocknum (current_blocknum (obj s')))) \/
  (exists slot,
     received s' = received s ++ [slot.1] /\
     current_blocknum (obj s') = current_blocknum (obj s) + 1 /\
     ((o = CallGetCurrentBlock /\ parked s = None /\
       buffer (obj s) !! position (index_of (current_blocknum (obj s)) (buffer_size (obj s)))
         = Some slot /\
       slot.2 = epoch_of (current_blocknum (obj s)) (buffer_size (obj s))) \/
      (o = WaitReturns /\ exists index,
         parked s = Some index /\ buffer (obj s) !! position index = Some slot))).
Proof.
  unfold exec. destruct o as [b| | |n].
  - rewrite AddBlock_unfold. destruct (buffer_size (obj s) =? 0); [done|]. cbv zeta.
    destruct (buffer (obj s) !! _); [|done]. intros [= <-]. left. by split; [|left].
  - destruct (parked s) eqn:Hp; [done|]. rewrite GetCurrentBlock_unfold.
    destruct (buffer_size (obj s) =? 0); [done|]. cbv zeta.
    destruct (buffer (obj s) !! _) as [slot|] eqn:Hslot; [|done].
    destruct (Z.eqb_spec slot.2
                (epoch_of (current_blocknum (obj s)) (buffer_size (obj s)))) as [Heq|Hne].
    + destruct (current_blocknum (obj s) =? INT_MAX); [done|]. intros [= <-].
      right. exists slot. split; [done|]. split; [done|]. by left.
    + intros [= <-]. left. by split; [|left].
  - destruct (parked s) as [index|] eqn:Hp; [|done]. rewrite GetCurrentBlock_wake_unfold.
    destruct (current_blocknum (obj s) =? INT_MAX); [done|].
    destruct (buffer (obj s) !! _) as [slot|] eqn:Hslot; [|done]. intros [= <-].
    right. exists slot. split; [done|]. split; [done|]. right. split; [done|]. by exists index.
  - destruct (parked s); [done|]. rewrite SetCurrentBlocknum_unfold. intros [= <-].
    left. by split; [|right].
Qed.

Lemma run_cursor_nonneg bsize h s :
  Forall op_resets_nonneg h ->
  run h (start bsize) = Next s ->
  0 <= current_blocknum (obj s).
Proof.
  revert s. induction h as [|o h IH] using rev_ind; intros s Hnn.
  - by intros [= <-].
  - apply Forall_app in Hnn as [Hnn Hnn1]. apply Forall_inv in Hnn1. rewrite run_snoc.
    destruct (run h (start bsize)) as [s0| |] eqn:Hrun; [|done..].
    specialize (IH s0 Hnn eq_refl). intros Hexec.
    destruct (exec_cases _ _ _ Hexec) as [[_ [->| ->]]|(slot & _ & -> & _)]; [done| |lia].
    cbn [op_resets_nonneg] in Hnn1. done.
Qed.

(** In a history that adds only numbers that are not negative, a slot that
    passes the test of [GetCurrentBlock] for a cursor that is not negative
    holds the block with the cursor's number. *)
Lemma matching_slot_is_cursor_block bsize h s slot :
  is_unsigned bsize ->
  Forall op_typed h ->
  Forall op_adds_nonneg h ->
  run h (start bsize) = Next s ->
  0 <= current_blocknum (obj s) ->
  buffer (obj s) !! position (index_of (current_blocknum (obj s)) (buffer_size (obj s)))
    = Some slot ->
  slot.2 = epoch_of (current_blocknum (obj s)) (buffer_size (obj s)) ->
  slot.1 = mkBlock (current_blocknum (obj s)).
Proof.
  intros Hbs Hty Hnn Hrun Hnneg Hslot Hepoch.
  destruct (run_invariant bsize h s Hbs Hty Hnn Hrun) as ([_ Hlen Hcur] & Hsize & Hinv).
  rewrite Hsize in *. unfold is_unsigned, is_int, INT_MIN, INT_MAX, UINT_MAX in *.
  pose proof (lookup_lt_Some _ _ _ Hslot) as Hlt.
  rewrite epoch_of_nonneg in Hepoch by (unfold INT_MAX; lia).
  rewrite index_of_nonneg in Hslot by (unfold INT_MAX; lia).
  pose proof (Z.mod_pos_bound (current_blocknum (obj s)) bsize) as Hmod.
  rewrite position_small in Hslot by (unfold UINT_MAX; lia).
  assert (0 <= current_blocknum (obj s) / bsize) as Hq by (apply Z.div_pos; lia).
  specialize (Hinv _ _ Hslot).
  destruct (last_added bsize _ h) as [b|] eqn:Hlast.
  - destruct (last_added_Some _ _ _ _ Hlast) as [Hin Hpos].
    pose proof (proj1 (Forall_forall _ _) Hty _ Hin) as Hb1.
    pose proof (proj1 (Forall_forall _ _) Hnn _ Hin) as Hb2.
    cbn [op_typed op_adds_nonneg] in Hb1, Hb2. unfold is_int, INT_MIN, INT_MAX in Hb1.
    subst slot. cbn [fst snd] in *.
    rewrite index_of_nonneg in Hpos by (unfold INT_MAX; lia).
    pose proof (Z.mod_pos_bound (number b) bsize).
    rewrite position_small in Hpos by (unfold UINT_MAX; lia).
    assert (number b mod bsize = current_blocknum (obj s) mod bsize) as Hm by lia.
    rewrite <- (Block_eta b). f_equal.
    rewrite (Z.div_mod (number b) bsize), (Z.div_mod (current_blocknum (obj s)) bsize) by lia.
    by rewrite Hepoch, Hm.
  - subst slot. unfold default_slot in Hepoch. cbn [snd] in Hepoch. lia.
Qed.

(** Where a call leaves the consumer. *)
Lemma exec_parked o s s' :
  exec o s = Next s' ->
  match o with
  | CallAddBlock b =>
      parked s' = parked s /\
      current_blocknum (obj s') = current_blocknum (obj s) /\
      (position (index_of (number b) (buffer_size (obj s))) < length (buffer (obj s)))%nat
  | CallGetCurrentBlock =>
      parked s' = None \/
      (parked s' = Some (index_of (current_blocknum (obj s)) (buffer_size (obj s))) /\
       current_blocknum (obj s') = current_blocknum (obj s))
  | _ => parked s' = None
  end.
Proof.
  unfold exec. destruct o as [b| | |n].
  - rewrite AddBlock_unfold. destruct (buffer_size (obj s) =? 0); [done|]. cbv zeta.
    destruct (buffer (obj s) !! _) eqn:Hslot; [|done]. intros [= <-].
    split; [done|]. split; [done|]. by apply lookup_lt_Some in Hslot.
  - destruct (parked s); [done|]. rewrite GetCurrentBlock_unfold.
    destruct (buffer_size (obj s) =? 0); [done|]. cbv zeta.
    destruct (buffer (obj s) !! _) as [slot|]; [|done].
    destruct (slot.2 =? _).
    + destruct (current_blocknum (obj s) =? INT_MAX); [done|]. intros [= <-]. by left.
    + intros [= <-]. by right.
  - destruct (parked s); [|done]. rewrite GetCurrentBlock_wake_unfold.
    destruct (current_blocknum (obj s) =? INT_MAX); [done|].
    destruct (buffer (obj s) !! _); [|done]. by intros [= <-].
  - destruct (parked s); [done|]. by intros [= <-].
Qed.

(** What holds after a history in which waits return only after a
    notification: a parked consumer waits on the index of the cursor, and
    once notified the slot holds the block with the cursor's number. *)
Lemma run_paced_invariant bsize h p :
  is_unsigned bsize ->
  Forall op_typed h ->
  run_paced h (start_paced bsize) = PNext p ->
  (forall index, parked (sys p) = Some index ->
     index = index_of (current_blocknum (obj (sys p))) bsize) /\
  (notified p = true ->
   exists index epoch,
     parked (sys p) = Some index /\
     buffer (obj (sys p)) !! position index
       = Some (mkBlock (current_blocknum (obj (sys p))), epoch)).
Proof.
  intros Hbs. revert p. induction h as [|o h IH] using rev_ind; intros p Hty.
  - intros [= <-]. by split.
  - apply Forall_app in Hty as [Hty Hty1]. apply Forall_inv in Hty1.
    rewrite run_paced_snoc.
    destruct (run_paced h (start_paced bsize)) as [p0| |] eqn:Hrun; [|done..].
    destruct (IH p0 Hty eq_refl) as [Hidx Hnot]. intros Hexec.
    pose proof (run_paced_run _ _ _ Hrun) as Hrun0. cbn [start_paced sys] in Hrun0.
    destruct (run_wf bsize h (sys p0) Hbs Hty Hrun0) as [Hwf Hsize].
    pose proof (exec_paced_exec _ _ _ Hexec) as Hplain.
    destruct (exec_effect o (sys p0) (sys p) Hty1 Hwf Hplain) as (_ & _ & Hbuf).
    pose proof (exec_parked _ _ _ Hplain) as Hshape.
    unfold exec_paced in Hexec. rewrite Hsize in *.
    destruct o as [b| | |n].
    + (* AddBlock *)
      destruct Hshape as (Hp & Hcur & Hlt). rewrite Hp, Hcur, Hbuf.
      split; [done|].
      destruct (notified p0 && hits_awaited_slot b (sys p0) && negb (notifies b (sys p0)))
        eqn:Hclobber; [done|].
      rewrite Hplain in Hexec. injection Hexec as <-. cbn [notified]. intros Hn.
      unfold notifies in Hn, Hclobber.
      destruct (Z.eqb_spec (number b) (current_blocknum (obj (sys p0)))) as [Hnum|Hnum].
      * (* the block of the cursor: it is written to the awaited slot *)
        destruct (parked (sys p0)) as [index|] eqn:Hp0.
        -- exists index, (epoch_of (number b) bsize). split; [done|].
           rewrite (Hidx index eq_refl), <- Hnum, Block_eta.
           by apply list_lookup_insert_eq.
        -- destruct (notified p0); [|done]. by destruct (Hnot eq_refl) as (? & ? & ? & _).
      * (* another block: the consumer was notified before, the slot is spared *)
        rewrite andb_false_r, orb_false_r in Hn. rewrite Hn in Hclobber.
        destruct (Hnot Hn) as (index & epoch & Hp0 & Hslot).
        exists index, epoch. split; [done|].
        unfold hits_awaited_slot in Hclobber. rewrite Hp0, Hsize in Hclobber.
        cbn [andb negb] in Hclobber. rewrite andb_true_r in Hclobber.
        apply Nat.eqb_neq in Hclobber. by rewrite list_lookup_insert_ne.
    + (* GetCurrentBlock *)
      rewrite Hplain in Hexec. injection Hexec as <-. cbn [sys notified].
      split; [|done]. destruct Hshape as [->|[-> ->]]; [done|]. by intros index [= <-].
    + (* the wait returns *)
      destruct (notified p0); [|done].
      rewrite Hplain in Hexec. injection Hexec as <-. cbn [sys notified].
      rewrite Hshape. by split.
    + (* SetCurrentBlocknum *)
      rewrite Hplain in Hexec. injection Hexec as <-. cbn [sys notified].
      rewrite Hshape. by split.
Qed.

(** Each call either hands over nothing or hands over the block with the
    number the cursor had. *)
Lemma exec_paced_delivery bsize h o p p' :
  is_unsigned bsize ->
  Forall op_typed h ->
  Forall op_adds_nonneg h ->
  Forall op_resets_nonneg h ->
  run_paced h (start_paced bsize) = PNext p ->
  exec_paced o p = PNext p' ->
  (received (sys p') = received (sys p) /\
   (current_blocknum (obj (sys p')) = current_blocknum (obj (sys p)) \/ op_is_reset o)) \/
  (received (sys p') = received (sys p) ++ [mkBlock (current_blocknum (obj (sys p)))] /\
   current_blocknum (obj (sys p')) = current_blocknum (obj (sys p)) + 1).
Proof.
  intros Hbs Hty Hnn Hrs Hrun Hexec.
  pose proof (run_paced_run _ _ _ Hrun) as Hrun0. cbn [start_paced sys] in Hrun0.
  destruct (run_paced_invariant bsize h p Hbs Hty Hrun) as [Hidx Hnot].
  pose proof (run_cursor_nonneg bsize h (sys p) Hrs Hrun0) as Hcur.
  destruct (exec_cases _ _ _ (exec_paced_exec _ _ _ Hexec))
    as [[Hrec [Hsame| ->]]|(slot & Hrec & Hnext & [(-> & Hp & Hslot & Hepoch)|(-> & Hwake)])].
  - left. split; [done|by left].
  - left. split; [done|by right].
  - right. split; [|done]. rewrite Hrec.
    by rewrite (matching_slot_is_cursor_block bsize h (sys p) slot).
  - right. split; [|done]. rewrite Hrec.
    destruct Hwake as (index & Hp & Hslot).
    unfold exec_paced in Hexec. destruct (notified p) eqn:Hn; [|done].
    destruct (Hnot eq_refl) as (index' & epoch & Hp' & Hslot').
    rewrite Hp in Hp'. injection Hp' as <-. rewrite Hslot in Hslot'.
    by injection Hslot' as ->.
Qed.

End Paced.

(** Without [SetCurrentBlocknum] the consumer has received the blocks below
    the cursor, in order. *)
Lemma paced_received_in_order (bsize : Z) (h : list op) (p : paced) :
  is_unsigned bsize ->
  Forall op_typed h ->
  Forall op_adds_nonneg h ->
  Forall (fun o => ~ op_is_reset o) h ->
  run_paced h (start_paced bsize) = PNext p ->
  0 <= current_blocknum (obj (sys p)) /\
  received (sys p) = blocks 0 (current_blocknum (obj (sys p))).
Proof.
  intros Hbs. revert p. induction h as [|o h IH] using rev_ind; intros p Hty Hnn Hnr.
  - intros [= <-]. by split.
  - apply Forall_app in Hty as [Hty Hty1]. apply Forall_app in Hnn as [Hnn Hnn1].
    apply Forall_app in Hnr as [Hnr Hnr1]. apply Forall_inv in Hnr1.
    rewrite run_paced_snoc.
    destruct (run_paced h (start_paced bsize)) as [p0| |] eqn:Hrun; [|done..].
    destruct (IH p0 Hty Hnn Hnr eq_refl) as [Hcur Hrec]. intros Hexec.
    assert (Forall op_resets_nonneg h) as Hrs.
    { eapply Forall_impl; [exact Hnr|]. intros [b| | |n] Hn; try done. }
    destruct (exec_paced_delivery bsize h o p0 p Hbs Hty Hnn Hrs Hrun Hexec)
      as [[Hsame [Hc|Hreset]]|[Hmore Hc]]; [| done |].
    + rewrite Hsame, Hc. by split.
    + rewrite Hmore, Hc, Hrec. split; [lia|].
      destruct (Z_of_nat_complete _ Hcur) as [k ->].
      replace (Z.of_nat k + 1) with (Z.of_nat (S k)) by lia.
      by rewrite blocks_snoc, Z.add_0_l.
Qed.


(** X11: delivery in order when calls do not overlap.  Take any history of
    [AddBlock] calls with numbers that are not negative, [GetCurrentBlock]
    calls and returns from the wait on a new buffer, in which the calls
    take effect one at a time (each [AddBlock] runs from its test to its
    return with no step of the consumer in between; it may run while the
    consumer is parked in its wait), a wait returns only after a
    notification and the awaited slot is not written with another block
    between the two.  Then, in whatever order the producers' calls and the
    consumer's calls follow one another, what the consumer has received is
    exactly the blocks 0, 1, ..., [current_blocknum - 1] in that order:
    nothing skipped, nothing twice, nothing out of order.  For a call of
    [AddBlock] that is overtaken between its test and its write this does
    not hold: see X16. *)
Theorem X11_separate_calls_delivered_in_order (bsize : Z) (h : list op) (p : paced) :
  is_unsigned bsize ->
  Forall op_typed h ->
  Forall op_adds_nonneg h ->
  Forall (fun o => ~ op_is_reset o) h ->
  run_paced h (start_paced bsize) = PNext p ->
  0 <= current_blocknum (obj (sys p)) /\
  received (sys p) = blocks 0 (current_blocknum (obj (sys p))) /\
  number <$> received (sys p) = seqZ 0 (current_blocknum (obj (sys p))) /\
  NoDup (number <$> received (sys p)).
Proof.
  intros Hbs Hty Hnn Hnr Hrun.
  destruct (paced_received_in_order bsize h p Hbs Hty Hnn Hnr Hrun) as [Hcur Hrec].
  assert (number <$> received (sys p) = seqZ 0 (current_blocknum (obj (sys p)))) as Hnums
    by (by rewrite Hrec, numbers_of_blocks).
  repeat split; try done. rewrite Hnums. apply NoDup_seqZ.
Qed.

Lemma X11_separate_calls_delivered_in_order_witness :
  let h := [CallGetCurrentBlock; CallAddBlock (mkBlock 1); CallAddBlock (mkBlock 0);
            WaitReturns; CallGetCurrentBlock; CallGetCurrentBlock;
            CallAddBlock (mkBlock 5); CallAddBlock (mkBlock 2); WaitReturns] in
  exists p,
    run_paced h (start_paced 4) = PNext p /\
    received (sys p) = [mkBlock 0; mkBlock 1; mkBlock 2] /\
    0 <= current_blocknum (obj (sys p)) /\
    received (sys p) = blocks 0 (current_blocknum (obj (sys p))) /\
    number <$> received (sys p) = seqZ 0 (current_blocknum (obj (sys p))) /\
    NoDup (number <$> received (sys p)).
Proof.
  intros h. eexists. split; [vm_compute; reflexivity|]. split; [reflexivity|].
  apply (X11_separate_calls_delivered_in_order 4 h).
  - unfold is_unsigned, UINT_MAX. lia.
  - unfold h. repeat (apply Forall_cons; split; [vm_compute; intuition discriminate|]).
    apply Forall_nil. exact I.
  - unfold h. repeat (apply Forall_cons; split; [vm_compute; intuition discriminate|]).
    apply Forall_nil. exact I.
  - unfold h. repeat (apply Forall_cons; split; [vm_compute; tauto|]).
    apply Forall_nil. exact I.
  - vm_compute. reflexivity.
Defined.

(** X12: the same reading of a history (calls that take effect one at a
    time, a wait that returns only after a notification), now with
    [SetCurrentBlocknum] calls, to values that are not negative, anywhere
    in the history: at every point, the next call either hands the consumer
    nothing, or hands over the block whose number is the value
    [current_blocknum] has at that point and moves the cursor on by one.  A
    block with any other number is never handed over. *)
Theorem X12_separate_calls_hand_over_cursor_block
    (bsize : Z) (h : list op) (o : op) (p p' : paced) :
  is_unsigned bsize ->
  Forall op_typed h ->
  Forall op_adds_nonneg h ->
  Forall op_resets_nonneg h ->
  run_paced h (start_paced bsize) = PNext p ->
  run_paced (h ++ [o]) (start_paced bsize) = PNext p' ->
  (received (sys p') = received (sys p) /\
   (current_blocknum (obj (sys p')) = current_blocknum (obj (sys p)) \/ op_is_reset o)) \/
  (received (sys p') = received (sys p) ++ [mkBlock (current_blocknum (obj (sys p)))] /\
   current_blocknum (obj (sys p')) = current_blocknum (obj (sys p)) + 1).
Proof.
  intros Hbs Hty Hnn Hrs Hrun Hnext. rewrite run_paced_snoc, Hrun in Hnext.
  by apply (exec_paced_delivery bsize h o p p').
Qed.

Lemma X12_separate_calls_hand_over_cursor_block_witness :
  let h := [CallAddBlock (mkBlock 0); CallGetCurrentBlock; CallSetCurrentBlocknum 9;
            CallGetCurrentBlock; CallAddBlock (mkBlock 9)] in
  exists p p',
    run_paced h (start_paced 4) = PNext p /\
    run_paced (h ++ [WaitReturns]) (start_paced 4) = PNext p' /\
    received (sys p') = [mkBlock 0; mkBlock 9] /\
    ((received (sys p') = received (sys p) /\
      (current_blocknum (obj (sys p')) = current_blocknum (obj (sys p)) \/
       op_is_reset WaitReturns)) \/
     (received (sys p') = received (sys p) ++ [mkBlock (current_blocknum (obj (sys p)))] /\
      current_blocknum (obj (sys p')) = current_blocknum (obj (sys p)) + 1)).
Proof.
  intros h. do 2 eexists. split; [vm_compute; reflexivity|].
  split; [vm_compute; reflexivity|]. split; [reflexivity|].
  apply (X12_separate_calls_hand_over_cursor_block 4 h WaitReturns).
  - unfold is_unsigned, UINT_MAX. lia.
  - unfold h. repeat (apply Forall_cons; split; [vm_compute; intuition discriminate|]).
    apply Forall_nil. exact I.
  - unfold h. repeat (apply Forall_cons; split; [vm_compute; intuition discriminate|]).
    apply Forall_nil. exact I.
  - unfold h. repeat (apply Forall_cons; split; [vm_compute; intuition discriminate|]).
    apply Forall_nil. exact I.
  - vm_compute. reflexivity.
  - vm_compute. reflexivity.
Defined.

(** * A call of [AddBlock] overtaken between its test and its write *)

Section Parts.

Lemma AddBlock_test_unfold b bb :
  AddBlock_test b bb =
  if buffer_size bb =? 0 then Undefined DivisionByZero
  else Ok ({| frame_epoch := epoch_of (number b) (buffer_size bb);
              frame_index := index_of (number b) (buffer_size bb);
              frame_targeted := number b =? current_blocknum bb |},
           bb, [BlocknumRead]).
Proof.
  unfold AddBlock_test, bind, get_buffer_size, int_div_unsigned, int_mod_unsigned,
    load_blocknum, undefined, ret, index_of, epoch_of.
  by destruct (buffer_size bb =? 0).
Qed.

Lemma AddBlock_write_unfold b f bb :
  AddBlock_write b f bb =
  match buffer bb !! position (frame_index f) with
  | Some _ =>
      Ok (tt, set_slot bb (frame_index f) (b, frame_epoch f),
          if frame_targeted f
          then [Acquire current_slot_mutex; SlotWrite (frame_index f); NotifyOne;
                Release current_slot_mutex]
          else [SlotWrite (frame_index f)])
  | None => Undefined OutOfRange
  end.
Proof.
  unfold AddBlock_write, bind, store_slot, emit, position, set_slot.
  destruct (frame_targeted f); cbn [buffer current_blocknum buffer_size];
    destruct (buffer bb !! _); done.
Qed.

(** The two parts, run with nothing in between, are [AddBlock]. *)
Lemma AddBlock_parts b bb :
  AddBlock b bb = (let* f := AddBlock_test b in AddBlock_write b f) bb.
Proof.
  rewrite AddBlock_unfold. unfold bind. rewrite AddBlock_test_unfold.
  destruct (buffer_size bb =? 0); [done|]. cbv zeta.
  rewrite AddBlock_write_unfold. cbn [frame_epoch frame_index frame_targeted].
  destruct (buffer bb !! _); [|done]. unfold AddBlock_events.
  by destruct (number b =? current_blocknum bb).
Qed.

(** The slots of two consecutive numbers differ when there are two slots
    or more. *)
Lemma consecutive_positions c bsize :
  0 <= c -> c + 1 <= INT_MAX -> 2 <= bsize ->
  position (index_of c bsize) <> position (index_of (c + 1) bsize).
Proof.
  intros Hc Hc1 Hb. unfold INT_MAX in *.
  rewrite !index_of_nonneg by (unfold INT_MAX; lia).
  pose proof (Z.mod_pos_bound c bsize ltac:(lia)).
  pose proof (Z.mod_pos_bound (c + 1) bsize ltac:(lia)).
  assert (c mod bsize <= c) by (apply Z.mod_le; lia).
  assert ((c + 1) mod bsize <= c + 1) by (apply Z.mod_le; lia).
  rewrite !position_small by (unfold UINT_MAX; lia).
  pose proof (residues_differ c (c + 1) bsize ltac:(lia) ltac:(lia) ltac:(lia)).
  lia.
Qed.

End Parts.

(** X16: the test of line 73 is made before the slot mutex is taken, so a
    call of [AddBlock] can be overtaken between its test and its write, and
    its [notify_one] then reaches a consumer that waits for another block.
    On a buffer with two slots or more, with the cursor at a number [c]
    that is not negative and block [c] already in its slot: a second
    [AddBlock] of block [c] passes the test; before it writes, the consumer
    takes block [c] and calls [GetCurrentBlock] again, which waits for
    block [c + 1]; the delayed call now takes the mutex, writes the slot of
    [c] and calls [notify_one], although its number is no longer the
    cursor; and the consumer, woken by a real notification, is handed
    whatever the slot of [c + 1] holds.  Block [c + 1] is skipped and the
    cursor is at [c + 2]. *)
Theorem X16_overtaken_add_wakes_waiting_consumer
    (s : system) (b : Block) (stale : Block * Z) :
  wf (obj s) ->
  2 <= buffer_size (obj s) ->
  parked s = None ->
  0 <= current_blocknum (obj s) ->
  current_blocknum (obj s) + 1 < INT_MAX ->
  number b = current_blocknum (obj s) ->
  buffer (obj s) !! position (index_of (current_blocknum (obj s)) (buffer_size (obj s)))
    = Some (b, epoch_of (current_blocknum (obj s)) (buffer_size (obj s))) ->
  buffer (obj s) !! position (index_of (current_blocknum (obj s) + 1) (buffer_size (obj s)))
    = Some stale ->
  stale.2 <> epoch_of (current_blocknum (obj s) + 1) (buffer_size (obj s)) ->
  exists f s1 s2 bb3 s4,
    AddBlock_test b (obj s) = Ok (f, obj s, [BlocknumRead]) /\
    frame_targeted f = true /\
    exec CallGetCurrentBlock s = Next s1 /\
    received s1 = received s ++ [b] /\
    exec CallGetCurrentBlock s1 = Next s2 /\
    parked s2 = Some (index_of (current_blocknum (obj s) + 1) (buffer_size (obj s))) /\
    received s2 = received s1 /\
    number b <> current_blocknum (obj s2) /\
    AddBlock_write b f (obj s2) =
      Ok (tt, bb3,
          [Acquire current_slot_mutex;
           SlotWrite (index_of (current_blocknum (obj s)) (buffer_size (obj s)));
           NotifyOne; Release current_slot_mutex]) /\
    exec WaitReturns {| obj := bb3; parked := parked s2; received := received s2 |}
      = Next s4 /\
    received s4 = received s ++ [b; stale.1] /\
    parked s4 = None /\
    current_blocknum (obj s4) = current_blocknum (obj s) + 2.
Proof.
  intros [Hbs Hlen Hint] Hcap Hp Hc Hc1 Hnum Hslot Hstale Hne.
  assert (buffer_size (obj s) <> 0) as Hnz by lia.
  pose proof (consecutive_positions (current_blocknum (obj s)) (buffer_size (obj s))
                Hc ltac:(lia) Hcap) as Hpos.
  eexists _, _, _, _, _.
  split.
  { rewrite AddBlock_test_unfold. destruct (Z.eqb_spec (buffer_size (obj s)) 0); [done|].
    reflexivity. }
  cbn [frame_targeted frame_index frame_epoch].
  split; [by apply Z.eqb_eq|].
  split; [apply (exec_get_deliver s _ Hp Hnz ltac:(lia) Hslot eq_refl)|].
  cbn [fst received]. split; [done|].
  split.
  { apply (exec_get_park _ stale); cbn [obj parked set_blocknum buffer buffer_size
                                          current_blocknum]; done. }
  cbn [obj parked received set_blocknum buffer buffer_size current_blocknum].
  split; [done|]. split; [done|]. split; [lia|].
  split.
  { rewrite AddBlock_write_unfold.
    cbn [frame_targeted frame_index frame_epoch set_blocknum buffer].
    rewrite Hnum, Hslot, Z.eqb_refl. reflexivity. }
  rewrite exec_wake with
    (index := index_of (current_blocknum (obj s) + 1) (buffer_size (obj s)))
    (slot := stale);
    cbn [obj parked received set_slot set_blocknum buffer buffer_size current_blocknum];
    try done.
  - split; [reflexivity|].
    cbn [obj parked received set_slot set_blocknum buffer buffer_size current_blocknum].
    split; [by rewrite <- app_assoc|]. split; [done|lia].
  - unfold INT_MAX in *. lia.
  - by rewrite list_lookup_insert_ne.
Qed.

Lemma X16_overtaken_add_wakes_waiting_consumer_witness :
  let s := {| obj := set_slot (BlocksBuffer_new BLOCKS_BUFFER_SIZE) 0 (mkBlock 0, 0);
              parked := None; received := [] |} in
  run [add_random_blocks_iteration 0] (start BLOCKS_BUFFER_SIZE) = Next s /\
  exists f s1 s2 bb3 s4,
    AddBlock_test (mkBlock 0) (obj s) = Ok (f, obj s, [BlocknumRead]) /\
    frame_targeted f = true /\
    exec CallGetCurrentBlock s = Next s1 /\
    received s1 = received s ++ [mkBlock 0] /\
    exec CallGetCurrentBlock s1 = Next s2 /\
    parked s2 = Some (index_of (current_blocknum (obj s) + 1) (buffer_size (obj s))) /\
    received s2 = received s1 /\
    number (mkBlock 0) <> current_blocknum (obj s2) /\
    AddBlock_write (mkBlock 0) f (obj s2) =
      Ok (tt, bb3,
          [Acquire current_slot_mutex;
           SlotWrite (index_of (current_blocknum (obj s)) (buffer_size (obj s)));
           NotifyOne; Release current_slot_mutex]) /\
    exec WaitReturns {| obj := bb3; parked := parked s2; received := received s2 |}
      = Next s4 /\
    received s4 = received s ++ [mkBlock 0; default_slot.1] /\
    parked s4 = None /\
    current_blocknum (obj s4) = current_blocknum (obj s) + 2.
Proof.
  intros s. split; [vm_compute; reflexivity|].
  apply (X16_overtaken_add_wakes_waiting_consumer s (mkBlock 0) default_slot).
  - split; vm_compute; try reflexivity; split; discriminate.
  - vm_compute. discriminate.
  - reflexivity.
  - vm_compute. discriminate.
  - vm_compute. reflexivity.
  - reflexivity.
  - vm_compute. reflexivity.
  - vm_compute. reflexivity.
  - vm_compute. discriminate.
Defined.

(** * The calls of the harness *)

Section HarnessCalls.

(** The blocks [add_random_blocks] adds carry the numbers 0 to 99. *)
Lemma harness_op_number o :
  harness_op o ->
  op_typed o /\ op_adds_nonneg o /\ op_resets_nonneg o /\
  forall b, o = CallAddBlock b -> 0 <= number b < BLOCKS_BUFFER_SIZE.
Proof.
  destruct o as [b| | |n]; cbn [harness_op op_typed op_adds_nonneg op_resets_nonneg];
    try done.
  intros (r & Hr & Hb). unfold add_random_blocks_iteration in Hb. injection Hb as ->.
  cbn [number number_]. unfold BLOCKS_BUFFER_SIZE, is_int, INT_MIN, INT_MAX in *.
  pose proof (Z.rem_bound_pos r 100 ltac:(lia) ltac:(lia)).
  split; [lia|]. split; [lia|]. split; [done|].
  intros b' [= <-]. cbn [number number_]. lia.
Qed.

Lemma harness_ops h :
  Forall harness_op h ->
  Forall op_typed h /\ Forall op_adds_nonneg h /\ Forall op_resets_nonneg h.
Proof.
  intros Hh. repeat split; (eapply Forall_impl; [exact Hh|]);
    intros o Ho; by destruct (harness_op_number o Ho) as (? & ? & ? & _).
Qed.

End HarnessCalls.

(** X17: the harness only ever serves the cursors 0 to 99.  After any calls
    of the two threads of the harness on the global buffer (iterations of
    [add_random_blocks] for any values of [rand()], calls of
    [GetCurrentBlock] and returns from its wait, in any order), as long as
    none of them is undefined: slot [i] holds either the constructor's
    entry or block [i] with epoch 0, never another block or epoch; the
    cursor is not negative; and once the cursor has reached 100, a call of
    [GetCurrentBlock] finds no matching epoch and waits, whatever the
    producer has added. *)
Theorem X17_harness_serves_first_hundred (h : list op) (s : system) :
  Forall harness_op h ->
  run h (start BLOCKS_BUFFER_SIZE) = Next s ->
  (forall (pos : nat) (slot : Block * Z),
     buffer (obj s) !! pos = Some slot ->
     slot = default_slot \/ slot = (mkBlock (Z.of_nat pos), 0)) /\
  0 <= current_blocknum (obj s) /\
  (parked s = None ->
   BLOCKS_BUFFER_SIZE <= current_blocknum (obj s) ->
   exec CallGetCurrentBlock s =
   Next {| obj := obj s;
           parked := Some (index_of (current_blocknum (obj s)) BLOCKS_BUFFER_SIZE);
           received := received s |}).
Proof.
  intros Hh Hrun. destruct (harness_ops h Hh) as (Hty & Hnn & Hrs).
  assert (is_unsigned BLOCKS_BUFFER_SIZE) as Hbs
    by (unfold is_unsigned, BLOCKS_BUFFER_SIZE, UINT_MAX; lia).
  destruct (run_invariant _ h s Hbs Hty Hnn Hrun) as ([_ Hlen Hint] & Hsize & Hinv).
  pose proof (run_cursor_nonneg _ h s Hrs Hrun) as Hcur.
  assert (forall (pos : nat) (slot : Block * Z),
            buffer (obj s) !! pos = Some slot ->
            slot = default_slot \/ slot = (mkBlock (Z.of_nat pos), 0)) as Hslots.
  { intros pos slot Hslot. specialize (Hinv pos slot Hslot).
    destruct (last_added BLOCKS_BUFFER_SIZE pos h) as [b|] eqn:Hlast; [|by left].
    right. destruct (last_added_Some _ _ _ _ Hlast) as [Hin Hpos].
    pose proof (proj1 (Forall_forall _ _) Hh _ Hin) as Hb.
    destruct (harness_op_number _ Hb) as (_ & _ & _ & Hnum).
    specialize (Hnum b eq_refl). unfold BLOCKS_BUFFER_SIZE in *.
    rewrite index_of_nonneg in Hpos by (unfold INT_MAX; lia).
    rewrite Z.mod_small in Hpos by lia.
    rewrite position_small in Hpos by (unfold UINT_MAX; lia).
    subst slot. rewrite Z.div_small by lia.
    rewrite <- (Block_eta b) at 1. do 2 f_equal. lia. }
  split; [done|]. split; [done|].
  intros Hp Hfar. rewrite <- Hsize.
  assert (0 < buffer_size (obj s) <= 2147483648) as Hcap
    by (rewrite Hsize; unfold BLOCKS_BUFFER_SIZE; lia).
  destruct (position_in_range (current_blocknum (obj s)) (obj s) Hlen Hcap) as [_ Hlt].
  destruct (lookup_lt_is_Some_2 _ _ Hlt) as [slot Hslot].
  apply (exec_get_park s slot Hp ltac:(lia) Hslot).
  rewrite Hsize. unfold is_int, INT_MAX, BLOCKS_BUFFER_SIZE in *.
  rewrite epoch_of_nonneg by (unfold INT_MAX; lia).
  assert (1 <= current_blocknum (obj s) / 100) by (apply Z.div_le_lower_bound; lia).
  destruct (Hslots _ _ Hslot) as [-> | ->]; cbn [default_slot snd]; unfold default_slot;
    cbn [snd]; lia.
Qed.

Lemma X17_harness_serves_first_hundred_witness :
  let h := [add_random_blocks_iteration 1804289383; CallGetCurrentBlock;
            add_random_blocks_iteration 846930886; add_random_blocks_iteration 1681692777;
            WaitReturns; CallGetCurrentBlock] in
  exists s,
    run h (start BLOCKS_BUFFER_SIZE) = Next s /\
    buffer (obj s) !! 83%nat = Some (mkBlock 83, 0) /\
    received s = [mkBlock 0] /\
    (forall (pos : nat) (slot : Block * Z),
       buffer (obj s) !! pos = Some slot ->
       slot = default_slot \/ slot = (mkBlock (Z.of_nat pos), 0)) /\
    0 <= current_blocknum (obj s) /\
    (parked s = None ->
     BLOCKS_BUFFER_SIZE <= current_blocknum (obj s) ->
     exec CallGetCurrentBlock s =
     Next {| obj := obj s;
             parked := Some (index_of (current_blocknum (obj s)) BLOCKS_BUFFER_SIZE);
             received := received s |}).
Proof.
  intros h. eexists. split; [vm_compute; reflexivity|].
  split; [reflexivity|]. split; [reflexivity|].
  apply (X17_harness_serves_first_hundred h).
  - unfold h. repeat (apply Forall_cons; split;
                      [first [exact I | eexists; split; [|reflexivity]; unfold INT_MAX; lia]|]).
    apply Forall_nil. exact I.
  - vm_compute. reflexivity.
Defined.


(** * A buffer without slots *)

(** X15: the constructor accepts the capacity 0, but a buffer built with it
    cannot be used: [AddBlock] and [GetCurrentBlock] both divide by
    [buffer_size], so every history that is defined consists of
    [SetCurrentBlocknum] calls only, hands over nothing, and leaves a state
    in which [AddBlock] and [GetCurrentBlock] are a division by zero. *)
Theorem X15_capacity_zero_is_unusable (h : list op) (s : system) :
  run h (start 0) = Next s ->
  Forall op_is_reset h /\
  buffer (obj s) = [] /\ received s = [] /\
  (forall b, exec (CallAddBlock b) s = Faulted DivisionByZero) /\
  exec CallGetCurrentBlock s = Faulted DivisionByZero.
Proof.
  assert (forall h s, run h (start 0) = Next s ->
            Forall op_is_reset h /\ buffer_size (obj s) = 0 /\ parked s = None /\
            buffer (obj s) = [] /\ received s = []) as Hinv.
  { clear. induction h as [|o h IH] using rev_ind; intros s.
    - intros [= <-]. by repeat split.
    - rewrite run_snoc. destruct (run h (start 0)) as [s0| |]; [|done..].
      destruct (IH s0 eq_refl) as (Hh & Hsize & Hp & Hbuf & Hrec).
      unfold exec. rewrite Hp. destruct o as [b| | |n].
      + rewrite AddBlock_unfold, Hsize. done.
      + rewrite GetCurrentBlock_unfold, Hsize. done.
      + done.
      + rewrite SetCurrentBlocknum_unfold. intros [= <-].
        cbn [obj parked received set_blocknum buffer buffer_size].
        split; [|done]. apply Forall_app. split; [done|]. by apply Forall_singleton. }
  intros Hrun. destruct (Hinv h s Hrun) as (Hh & Hsize & Hp & Hbuf & Hrec).
  split; [done|]. split; [done|]. split; [done|]. unfold exec. split.
  - intros b. by rewrite AddBlock_unfold, Hsize.
  - by rewrite Hp, GetCurrentBlock_unfold, Hsize.
Qed.

Lemma X15_capacity_zero_is_unusable_witness :
  exists s,
    run [CallSetCurrentBlocknum 3; CallSetCurrentBlocknum (-1)] (start 0) = Next s /\
    Forall op_is_reset [CallSetCurrentBlocknum 3; CallSetCurrentBlocknum (-1)] /\
    buffer (obj s) = [] /\ received s = [] /\
    (forall b, exec (CallAddBlock b) s = Faulted DivisionByZero) /\
    exec CallGetCurrentBlock s = Faulted DivisionByZero.
Proof.
  eexists. split; [reflexivity|].
  apply (X15_capacity_zero_is_unusable
           [CallSetCurrentBlocknum 3; CallSetCurrentBlocknum (-1)]).
  reflexivity.
Defined.
